(** * convert_icons.py: bitmap tables and drawBitmap calls, Adafruit to U8g2

    A shallow embedding of [AQI_Monitoring_oled/convert_icons.py].  The
    script reads a sketch, rewrites every
    [const unsigned char NAME[] PROGMEM = { ... };] table with the bits of
    each byte reversed, rewrites every commented-out [display.drawBitmap]
    call into a [setDrawColor]/[drawXBMP] pair, and writes the text back.

    Text is a list of characters with code points below 256.  The functions
    of Python's [str], [int], [format] and [re] that the script calls are
    modelled first (modules [Py] and [Re]); the script itself follows in
    module [ConvertIcons]; the theorems come last. *)

From Stdlib Require Import Ascii String NArith ZArith Arith Bool Lia ZifyNat List.
From Stdlib Require HexadecimalString HexadecimalN.
Import ListNotations.

Definition str := list ascii.

(** String literals of the source are written [txt "..."]. *)
Definition txt (s : string) : str := list_ascii_of_string s.

Definition code (c : ascii) : N := N_of_ascii c.

Definition in_range (lo hi : N) (c : ascii) : bool :=
  ((lo <=? code c) && (code c <=? hi))%N.

Definition is_char (a c : ascii) : bool := Ascii.eqb a c.

(** An exception raised by the script is [None]. *)
Definition bind {A B} (m : option A) (f : A -> option B) : option B :=
  match m with
  | Some a => f a
  | None => None
  end.

Notation "x <- m ;; k" := (bind m (fun x => k))
  (at level 61, m at next level, right associativity).

Fixpoint mapM {A B} (f : A -> option B) (l : list A) : option (list B) :=
  match l with
  | [] => Some []
  | a :: l' => b <- f a ;; bs <- mapM f l' ;; Some (b :: bs)
  end.

(** ** The Python built-ins used by the script *)

Module Py.

(** [str.isspace] on one character (equally the class [\s] of [re]):
    TAB..CR, FS..US, space, NEL and NBSP. *)
Definition isspace (c : ascii) : bool :=
  in_range 9 13 c || in_range 28 32 c || (code c =? 133)%N || (code c =? 160)%N.

Fixpoint lstrip (p : ascii -> bool) (s : str) : str :=
  match s with
  | [] => []
  | c :: s' => if p c then lstrip p s' else s
  end.

Definition rstrip (p : ascii -> bool) (s : str) : str :=
  rev (lstrip p (rev s)).

(** [s.strip(chars)]: the characters of [chars] are removed at both ends. *)
Definition strip_chars (chars : str) (s : str) : str :=
  let p := fun c => existsb (is_char c) chars in
  rstrip p (lstrip p s).

Definition strip_with (p : ascii -> bool) (s : str) : str :=
  rstrip p (lstrip p s).

(** [s.strip()] *)
Definition strip (s : str) : str := strip_with isspace s.

(** The white space that [int] accepts around a number: that of [isspace]
    without FS..US. *)
Definition int_space (c : ascii) : bool :=
  in_range 9 13 c || (code c =? 32)%N || (code c =? 133)%N || (code c =? 160)%N.

Fixpoint starts_with (p s : str) : bool :=
  match p, s with
  | [], _ => true
  | a :: p', c :: s' => Ascii.eqb a c && starts_with p' s'
  | _ :: _, [] => false
  end.

(** [s.split(sep)] for a non-empty [sep]: the occurrences of [sep] are taken
    from the left and do not overlap.  [skip] counts the characters of an
    occurrence still to be passed over, [cur] is the piece being read, in
    reverse. *)
Fixpoint split_go (sep : str) (skip : nat) (cur : str) (s : str) : list str :=
  match s with
  | [] => [rev cur]
  | c :: s' =>
      match skip with
      | S n => split_go sep n cur s'
      | O =>
          if starts_with sep s
          then rev cur :: split_go sep (length sep - 1) [] s'
          else split_go sep 0 (c :: cur) s'
      end
  end.

Definition split (sep : str) (s : str) : list str := split_go sep 0 [] s.

(** [sep.join(l)] *)
Fixpoint join (sep : str) (l : list str) : str :=
  match l with
  | [] => []
  | [a] => a
  | a :: l' => a ++ sep ++ join sep l'
  end.

(** Binary digits of a positive number, least significant first. *)
Fixpoint bits_lsb (p : positive) : str :=
  match p with
  | xH => ["1"%char]
  | xO p' => "0"%char :: bits_lsb p'
  | xI p' => "1"%char :: bits_lsb p'
  end.

(** [format(n, 'b')] for [n >= 0] *)
Definition format_b (n : N) : str :=
  match n with
  | N0 => ["0"%char]
  | Npos p => rev (bits_lsb p)
  end.

(** [format(n, 'x')] for [n >= 0]: lowercase hexadecimal digits. *)
Definition format_x (n : N) : str :=
  list_ascii_of_string (HexadecimalString.NilZero.string_of_uint (N.to_hex_uint n)).

(** Zero fill of the format specs [08b] and [02x]: pad on the left up to
    [width], never truncate. *)
Definition zfill (width : nat) (s : str) : str :=
  repeat "0"%char (width - length s) ++ s.

(** ['{:08b}'.format(n)] *)
Definition format_08b (n : N) : str := zfill 8 (format_b n).

(** [f"{n:02x}"] *)
Definition format_02x (n : N) : str := zfill 2 (format_x n).

(** Value of a digit character in the bases up to 16. *)
Definition digit_val (c : ascii) : option N :=
  if in_range 48 57 c then Some (code c - 48)%N
  else if in_range 97 102 c then Some (code c - 87)%N
  else if in_range 65 70 c then Some (code c - 55)%N
  else None.

Fixpoint int_digits (base : N) (acc : N) (ds : str) : option N :=
  match ds with
  | [] => Some acc
  | c :: ds' =>
      match digit_val c with
      | Some d => if (d <? base)%N then int_digits base (acc * base + d) ds' else None
      | None => None
      end
  end.

(** The base prefix that [int(s, base)] accepts: [0x]/[0X] in base 16,
    [0b]/[0B] in base 2. *)
Definition drop_base_prefix (base : N) (s : str) : str :=
  match s with
  | z :: p :: s' =>
      if is_char "0" z &&
         (((base =? 16)%N && (is_char "x" p || is_char "X" p)) ||
          ((base =? 2)%N && (is_char "b" p || is_char "B" p)))
      then s' else s
  | _ => s
  end.

(** [int(s, base)] for base 2 and 16 on unsigned text: surrounding white
    space and a base prefix are accepted, then at least one digit of the
    base must follow and nothing else.  [None] is [ValueError].  (Signs and
    [_] separators are not modelled; the script never passes them: its
    arguments are hits of [0x[0-9a-fA-F]+] and strings of binary digits.) *)
Definition int (s : str) (base : N) : option N :=
  match drop_base_prefix base (strip_with int_space s) with
  | [] => None
  | ds => int_digits base 0 ds
  end.

End Py.

(** ** The part of [re] used by the script

    The three patterns of the script are sequences of literal text, greedy
    repetitions [C*] and [C+] of one character class, and capture groups.
    [exec] is the backtracking matcher: a repetition first takes as many
    characters as it can and gives them back one at a time while the rest
    of the pattern fails. *)

Module Re.

Inductive regex : Type :=
| Lit (s : str)
| Star (cls : ascii -> bool)
| Plus (cls : ascii -> bool)
| Cat (r1 r2 : regex)
| Group (r : regex).

Definition cont (A : Type) : Type := list str -> str -> option A.

Fixpoint strip_prefix (p s : str) : option str :=
  match p, s with
  | [], _ => Some s
  | a :: p', c :: s' => if Ascii.eqb a c then strip_prefix p' s' else None
  | _ :: _, [] => None
  end.

Fixpoint star {A} (cls : ascii -> bool) (caps : list str) (s : str)
    (k : cont A) : option A :=
  match s with
  | c :: s' =>
      if cls c then
        match star cls caps s' k with
        | Some x => Some x
        | None => k caps s
        end
      else k caps s
  | [] => k caps s
  end.

(** [exec r caps s k]: match [r] at the start of [s], then run [k] on the
    groups closed so far and on the text that is left; the first way that
    makes [k] succeed wins. *)
Fixpoint exec {A} (r : regex) (caps : list str) (s : str) (k : cont A)
    : option A :=
  match r with
  | Lit l =>
      match strip_prefix l s with
      | Some rest => k caps rest
      | None => None
      end
  | Star cls => star cls caps s k
  | Plus cls =>
      match s with
      | c :: s' => if cls c then star cls caps s' k else None
      | [] => None
      end
  | Cat r1 r2 => exec r1 caps s (fun caps' s' => exec r2 caps' s' k)
  | Group r1 =>
      exec r1 caps s
        (fun caps' s' => k (caps' ++ [firstn (length s - length s') s]) s')
  end.

(** [pattern.match(s)]: the groups and the text after the match. *)
Definition match_at (r : regex) (s : str) : option (list str * str) :=
  exec r [] s (fun caps rest => Some (caps, rest)).

(** The pieces [finditer] cuts a text into: characters outside every match,
    and matches with their whole text and groups. *)
Inductive seg : Type :=
| Text (c : ascii)
| Hit (whole : str) (groups : list str).

(** Scan from the left; after a match the scan goes on behind it ([skip]
    counts the characters of the match still to be passed over).  The
    patterns of the script all begin with literal text, so no match is
    empty; an empty match is treated like a failure here. *)
Fixpoint scan (r : regex) (skip : nat) (s : str) : list seg :=
  match s with
  | [] => []
  | c :: s' =>
      match skip with
      | S n => scan r n s'
      | O =>
          match match_at r s with
          | Some (caps, rest) =>
              match length s - length rest with
              | S n => Hit (firstn (S n) s) caps :: scan r n s'
              | O => Text c :: scan r 0 s'
              end
          | None => Text c :: scan r 0 s'
          end
      end
  end.

(** [pattern.findall(s)] for a pattern without groups *)
Fixpoint hits (l : list seg) : list str :=
  match l with
  | [] => []
  | Text _ :: l' => hits l'
  | Hit w _ :: l' => w :: hits l'
  end.

Definition findall (r : regex) (s : str) : list str := hits (scan r 0 s).

(** [pattern.sub(repl, s)] with a function [repl] of the match *)
Fixpoint render (repl : str -> list str -> option str) (l : list seg)
    : option str :=
  match l with
  | [] => Some []
  | Text c :: l' => t <- render repl l' ;; Some (c :: t)
  | Hit w g :: l' => x <- repl w g ;; t <- render repl l' ;; Some (x ++ t)
  end.

Definition sub (r : regex) (repl : str -> list str -> option str) (s : str)
    : option str :=
  render repl (scan r 0 s).

(** [\w] on code points below 256: letters, digits (also the superscript
    digits and the vulgar fractions) and the underscore. *)
Definition is_word (c : ascii) : bool :=
  in_range 48 57 c || in_range 65 90 c || in_range 97 122 c ||
  (code c =? 95)%N || (code c =? 170)%N || (code c =? 178)%N ||
  (code c =? 179)%N || (code c =? 181)%N || (code c =? 185)%N ||
  (code c =? 186)%N || in_range 188 190 c || in_range 192 214 c ||
  in_range 216 246 c || in_range 248 255 c.

Definition is_not (a : ascii) (c : ascii) : bool := negb (is_char a c).

(** [[0-9a-fA-F]] *)
Definition is_hex (c : ascii) : bool :=
  in_range 48 57 c || in_range 97 102 c || in_range 65 70 c.

End Re.

Notation "r1 ;; r2" := (Re.Cat r1 r2) (at level 61, right associativity).

(** ** The script *)

Module ConvertIcons.

Import Py Re.

(** [int('{:08b}'.format(n)[::-1], 2)]; [n] is never negative here, it is
    read by [int] from unsigned digits. *)
Definition reverse_bits (n : N) : option N :=
  int (rev (format_08b n)) 2.

(** [const\s+unsigned\s+char\s+(\w+)\s*\[\]\s*PROGMEM\s*=\s*\{([^}]+)\};]
    (the flags [MULTILINE] and [DOTALL] only change [^], [$] and [.], which
    the pattern does not use) *)
Definition pattern : regex :=
  Lit (txt "const") ;; Plus isspace ;; Lit (txt "unsigned") ;; Plus isspace ;;
  Lit (txt "char") ;; Plus isspace ;; Group (Plus is_word) ;; Star isspace ;;
  Lit (txt "[]") ;; Star isspace ;; Lit (txt "PROGMEM") ;; Star isspace ;;
  Lit (txt "=") ;; Star isspace ;; Lit (txt "{") ;;
  Group (Plus (is_not "}")) ;; Lit (txt "};").

(** [0x[0-9a-fA-F]+] *)
Definition hex_pattern : regex := Lit (txt "0x") ;; Plus is_hex.

(** [values = [int(x.strip(), 16) for x in re.findall(..., hex_data)]] *)
Definition parse_values (hex_data : str) : option (list N) :=
  mapM (fun x => int (strip x) 16) (findall hex_pattern hex_data).

(** The wrap loop: [wrapped_data] and [cnt] after the values [vals]. *)
Fixpoint wrap_loop (vals : list str) (wrapped_data : str) (cnt : nat) : str :=
  match vals with
  | [] => wrapped_data
  | val :: vals' =>
      let wrapped_data := wrapped_data ++ val ++ txt ", " in
      let cnt := cnt + 1 in
      if cnt mod 12 =? 0
      then wrap_loop vals' (wrapped_data ++ [ascii_of_nat 10]) cnt
      else wrap_loop vals' wrapped_data cnt
  end.

(** From [new_values] to the stripped [wrapped_data]. *)
Definition wrap (new_values : list N) : str :=
  let new_hex_data :=
    join (txt ", ") (map (fun v => txt "0x" ++ format_02x v) new_values) in
  let wrapped_data := wrap_loop (split (txt ", ") new_hex_data) [] 0 in
  strip_chars (txt ", " ++ [ascii_of_nat 10]) wrapped_data.

Definition declaration (name body : str) : str :=
  txt "const unsigned char " ++ name ++ txt "[] PROGMEM = {" ++ body ++ txt "};".

(** [replacement(match)]; [groups] are [match.group(1)] and
    [match.group(2)]. *)
Definition replacement (whole : str) (groups : list str) : option str :=
  let name := nth 0 groups [] in
  let hex_data := nth 1 groups [] in
  values <- parse_values hex_data ;;
  new_values <- mapM reverse_bits values ;;
  Some (declaration name (wrap new_values)).

(** [new_content = pattern.sub(replacement, content)] *)
Definition array_pass (content : str) : option str :=
  sub pattern replacement content.

(** [//\s*display\.drawBitmap\s*\(\s*([^,]+),\s*([^,]+),\s*([^,]+),\s*([^,]+),\s*([^,]+),\s*[^)]+\);] *)
Definition draw_pattern : regex :=
  Lit (txt "//") ;; Star isspace ;; Lit (txt "display.drawBitmap") ;;
  Star isspace ;; Lit (txt "(") ;; Star isspace ;;
  Group (Plus (is_not ",")) ;; Lit (txt ",") ;; Star isspace ;;
  Group (Plus (is_not ",")) ;; Lit (txt ",") ;; Star isspace ;;
  Group (Plus (is_not ",")) ;; Lit (txt ",") ;; Star isspace ;;
  Group (Plus (is_not ",")) ;; Lit (txt ",") ;; Star isspace ;;
  Group (Plus (is_not ",")) ;; Lit (txt ",") ;; Star isspace ;;
  Plus (is_not ")") ;; Lit (txt ");").

Definition draw_call (x y w h bitmap : str) : str :=
  txt "display.setDrawColor(1); display.drawXBMP(" ++ x ++ txt ", " ++ y ++
  txt ", " ++ w ++ txt ", " ++ h ++ txt ", " ++ bitmap ++ txt ");".

(** [draw_replacement(match)] *)
Definition draw_replacement (whole : str) (groups : list str) : option str :=
  let x := strip (nth 0 groups []) in
  let y := strip (nth 1 groups []) in
  let bitmap := strip (nth 2 groups []) in
  let w := strip (nth 3 groups []) in
  let h := strip (nth 4 groups []) in
  Some (draw_call x y w h bitmap).

(** [new_content = draw_pattern.sub(draw_replacement, new_content)] *)
Definition call_pass (new_content : str) : option str :=
  sub draw_pattern draw_replacement new_content.

(** The two passes in a row: the text that [process_file] writes back for
    the text it has read. *)
Definition both_passes (content : str) : option str :=
  new_content <- array_pass content ;;
  call_pass new_content.

(** The files at hand: the text stored under each path, if any. *)
Definition files : Type := str -> option str.

Fixpoint same_path (a b : str) : bool :=
  match a, b with
  | [], [] => true
  | x :: a', y :: b' => Ascii.eqb x y && same_path a' b'
  | _, _ => false
  end.

(** [f.write(data)] on the file opened with [open(filename, 'w')] *)
Definition write (fs : files) (filename data : str) : files :=
  fun path => if same_path path filename then Some data else fs path.

(** [process_file(filename)]: read the whole file (a missing file raises),
    run the two passes, write the result over the file. *)
Definition process_file (fs : files) (filename : str) : option files :=
  content <- fs filename ;;
  new_content <- both_passes content ;;
  Some (write fs filename new_content).

End ConvertIcons.

Import Py Re ConvertIcons.

(** ** What a pattern matches

    [Matches r a g]: the text [a] is matched by [r], closing the groups [g]
    from left to right.  This is the reading of a pattern that does not
    depend on the order in which [exec] tries things. *)

Inductive Matches : Re.regex -> str -> list str -> Prop :=
| MLit (l : str) : Matches (Re.Lit l) l []
| MStar (cls : ascii -> bool) (a : str) :
    forallb cls a = true -> Matches (Re.Star cls) a []
| MPlus (cls : ascii -> bool) (a : str) :
    a <> [] -> forallb cls a = true -> Matches (Re.Plus cls) a []
| MCat (r1 r2 : Re.regex) (a1 a2 : str) (g1 g2 : list str) :
    Matches r1 a1 g1 -> Matches r2 a2 g2 ->
    Matches (r1 ;; r2) (a1 ++ a2) (g1 ++ g2)
| MGroup (r : Re.regex) (a : str) (g : list str) :
    Matches r a g -> Matches (Re.Group r) a (g ++ [a]).

(** The text [s] has a piece that [r] matches. *)
Definition contains_match (r : Re.regex) (s : str) : Prop :=
  exists pre m post g, s = pre ++ m ++ post /\ Matches r m g.


(** The text is empty or begins with a character outside the class: a
    repetition of the class ends in front of it. *)
Definition stops (cls : ascii -> bool) (s : str) : Prop :=
  match s with
  | [] => True
  | c :: _ => cls c = false
  end.


(** Every match reported by a scan satisfies [P]. *)
Definition each_hit (P : str -> list str -> Prop) (l : list Re.seg) : Prop :=
  Forall (fun x => match x with Re.Text _ => True | Re.Hit w g => P w g end) l.

(** The byte values 0..255. *)
Definition all_bytes : list N := map N.of_nat (seq 0 256).

Definition is_bin (c : ascii) : bool := is_char "0" c || is_char "1" c.

(** [[0-9a-f]] *)
Definition is_lower_hex (c : ascii) : bool :=
  in_range 48 57 c || in_range 97 102 c.

(** A literal [0x] followed by exactly two lowercase hexadecimal digits. *)
Definition two_digit_literal (l : str) : Prop :=
  exists d1 d2, l = txt "0x" ++ [d1; d2] /\
    is_lower_hex d1 = true /\ is_lower_hex d2 = true.

(** One byte is reversed correctly: the result is a byte; reversing it
    again gives the byte back; bit [i] of the result is bit [7 - i]. *)
Definition reverse_ok (v : N) : bool :=
  match ConvertIcons.reverse_bits v with
  | Some r =>
      (r <=? 255)%N &&
      match ConvertIcons.reverse_bits r with
      | Some v' => (v' =? v)%N
      | None => false
      end &&
      forallb (fun i => Bool.eqb (N.testbit r (N.of_nat i))
                                 (N.testbit v (7 - N.of_nat i)))
              (seq 0 8)
  | None => false
  end.

(** One byte is written as a two-digit literal that reads back. *)
Definition literal_ok (v : N) : bool :=
  match Py.format_02x v with
  | [d1; d2] =>
      is_lower_hex d1 && is_lower_hex d2 &&
      match Py.int (Py.strip (txt "0x" ++ [d1; d2])) 16 with
      | Some v' => (v' =? v)%N
      | None => false
      end
  | _ => false
  end.

(** The number written by hexadecimal digits. *)
Definition hex_val (ds : str) : N :=
  fold_left (fun acc c => (acc * 16 + match Py.digit_val c with
                                       | Some d => d
                                       | None => 0
                                       end)%N) ds 0%N.

(** White space, possibly none. *)
Definition blank (s : str) : Prop := forallb Py.isspace s = true.

(** At least one character, all of the class. *)
Definition run (cls : ascii -> bool) (s : str) : Prop :=
  s <> [] /\ forallb cls s = true.

(** The texts matched by [pattern], with the white space [s1]..[s7] they may
    have between the words. *)
Definition decl_text (s1 s2 s3 name s4 s5 s6 s7 body : str) : str :=
  txt "const" ++ s1 ++ txt "unsigned" ++ s2 ++ txt "char" ++ s3 ++ name ++
  s4 ++ txt "[]" ++ s5 ++ txt "PROGMEM" ++ s6 ++ txt "=" ++ s7 ++ txt "{" ++
  body ++ txt "};".

(** The texts matched by [draw_pattern]: five arguments, each up to the next
    comma, and the arguments [t] that follow them. *)
Definition call_text (s1 s2 s3 x s4 y s5 bitmap s6 w s7 h s8 t : str) : str :=
  txt "//" ++ s1 ++ txt "display.drawBitmap" ++ s2 ++ txt "(" ++ s3 ++
  x ++ txt "," ++ s4 ++ y ++ txt "," ++ s5 ++ bitmap ++ txt "," ++ s6 ++
  w ++ txt "," ++ s7 ++ h ++ txt "," ++ s8 ++ t ++ txt ");".


Definition sp : str := txt " ".

(** [p in s] *)
Fixpoint contains (p s : str) : bool :=
  Py.starts_with p s ||
  match s with
  | [] => false
  | _ :: s' => contains p s'
  end.

(** How every match of [draw_pattern] begins: the comment sign, white space
    if any, and the name of the call. *)
Definition call_opener : Re.regex :=
  Re.Lit (txt "//") ;; Re.Star Py.isspace ;; Re.Lit (txt "display.drawBitmap").

(** [A]..[F] to [a]..[f]; every other character is left alone. *)
Definition lower_hex (c : ascii) : ascii :=
  if in_range 65 70 c then ascii_of_N (code c + 32) else c.

(** [A]..[Z] *)
Definition is_upper (c : ascii) : bool := in_range 65 90 c.

(** The characters of a serialized byte list. *)
Definition is_wrap_char (c : ascii) : bool :=
  is_lower_hex c || is_char "x" c || is_char "," c || is_char " " c ||
  (code c =? 10)%N.

Definition map_seg (f : ascii -> ascii) (p : Re.seg) : Re.seg :=
  match p with
  | Re.Text c => Re.Text (f c)
  | Re.Hit w g => Re.Hit (map f w) (map (map f) g)
  end.

(** The line feed. *)
Definition nl : ascii := ascii_of_nat 10.

(** The literal written for one value. *)
Definition literal (v : N) : str := txt "0x" ++ Py.format_02x v.

(** The lines of a serialized byte list: [room] literals on the first line,
    twelve on each line after it, what is left on the last one. *)
Fixpoint lines_from (room : nat) (l : list str) : list (list str) :=
  match l with
  | [] => []
  | x :: l' =>
      match l' with
      | [] => [[x]]
      | _ :: _ =>
          match room with
          | S (S r) =>
              match lines_from (S r) l' with
              | line :: more => (x :: line) :: more
              | [] => [[x]]
              end
          | _ => [x] :: lines_from 12 l'
          end
      end
  end.

(** Every line but the last holds [room] literals, then twelve; the last
    line holds at least one and no more than that. *)
Fixpoint lines_ok (room : nat) (lines : list (list str)) : Prop :=
  match lines with
  | [] => True
  | [line] => 1 <= length line <= room
  | line :: more => length line = room /\ lines_ok 12 more
  end.

(** Lines of literals as text: [", "] between the literals of a line, and
    [", "] and a line feed between two lines. *)
Definition layout (lines : list (list str)) : str :=
  Py.join (txt ", " ++ [nl]) (map (Py.join (txt ", ")) lines).

Definition comma_space : str := txt ", ".

(** The characters that [strip(", \n")] removes. *)
Definition strip_set (c : ascii) : bool :=
  existsb (is_char c) (txt ", " ++ [nl]).

(** Not one of them. *)
Definition is_kept (c : ascii) : bool := negb (strip_set c).

(** Text that begins and ends with a character that [strip] keeps. *)
Definition firm (s : str) : Prop :=
  s <> [] /\ stops strip_set s /\ stops strip_set (rev s).

(** A piece of text that [split(', ')] and [strip(", \n")] leave whole. *)
Definition solid (l : str) : Prop := l <> [] /\ forallb is_kept l = true.

(** A literal as the pattern finds it: [0x] and at least one digit. *)
Definition hex_literal (l : str) : Prop :=
  exists ds, l = txt "0x" ++ ds /\ run is_hex ds.

(** Some [{] of the text is followed by a character other than [}]. *)
Fixpoint open_brace (s : str) : bool :=
  match s with
  | [] => false
  | a :: t =>
      (is_char "{" a && match t with
                        | b :: _ => Re.is_not "}" b
                        | [] => false
                        end) || open_brace t
  end.

(** The items of a comma-separated body: a literal [0x] with its digits, or
    any other text. *)
Inductive token : Type :=
| HexTok (ds : str)
| Other (s : str).

Definition token_text (t : token) : str :=
  match t with
  | HexTok ds => txt "0x" ++ ds
  | Other s => s
  end.

(** A literal has at least one digit; other text holds no [0x]. *)
Definition token_ok (t : token) : Prop :=
  match t with
  | HexTok ds => run Re.is_hex ds
  | Other s => contains (txt "0x") s = false
  end.

Definition token_literals (t : token) : list str :=
  match t with
  | HexTok ds => [txt "0x" ++ ds]
  | Other _ => []
  end.

Definition token_values (t : token) : list N :=
  match t with
  | HexTok ds => [hex_val ds]
  | Other _ => []
  end.

(** The reading of the specification: a byte token is [0x] followed by one
    or two hexadecimal digits, and only such tokens give a byte. *)
Definition short_hex_token (t : str) : bool :=
  match t with
  | z :: x :: ds =>
      is_char "0" z && is_char "x" x && (1 <=? length ds) &&
      (length ds <=? 2) && forallb Re.is_hex ds
  | _ => false
  end.

Definition claimed_values (tokens : list str) : list N :=
  map (fun t => hex_val (skipn 2 t)) (filter short_hex_token tokens).

(** ** Further notions, for the properties beyond the claims *)

(** An argument as it is written: at least one character, no comma, and no
    white space in front (that belongs to the space before it). *)
Definition argument (x : str) : Prop :=
  run (Re.is_not ",") x /\ stops Py.isspace x.

(** The arguments after the fifth: at least one character, no closing
    parenthesis, no white space in front. *)
Definition last_arguments (t : str) : Prop :=
  run (Re.is_not ")") t /\ stops Py.isspace t.

(** A commented-out call up to the comma after its fifth argument; [a1]..[a5]
    are the arguments with the white space around them. *)
Definition call_start (s1 s2 a1 a2 a3 a4 a5 : str) : str :=
  txt "//" ++ s1 ++ txt "display.drawBitmap" ++ s2 ++ txt "(" ++
  a1 ++ txt "," ++ a2 ++ txt "," ++ a3 ++ txt "," ++ a4 ++ txt "," ++
  a5 ++ txt ",".

(** The number read, most significant digit first, from the digits of [acc]
    followed by the binary digits of [p] in reverse order. *)
Fixpoint rev_pos (p : positive) (acc : N) : N :=
  match p with
  | xH => 2 * acc + 1
  | xO p' => rev_pos p' (2 * acc)
  | xI p' => rev_pos p' (2 * acc + 1)
  end%N.

(** The number of binary digits that ['{:08b}'.format(n)] writes: those of
    [n], and at least eight. *)
Definition width (n : N) : N := N.max 8 (N.size n).

(** The characters of a hexadecimal numeral. *)
Definition uint_chars (d : Hexadecimal.uint) : str :=
  list_ascii_of_string (HexadecimalString.NilEmpty.string_of_uint d).



(** * Facts about the built-ins *)

Section ReFacts.

Import Re.

Variable A : Type.

Lemma strip_prefix_Some (p s rest : str) :
  strip_prefix p s = Some rest -> s = p ++ rest.
Proof.
  revert s; induction p as [|a p IH]; intros [|c s]; simpl; try congruence.
  destruct (Ascii.eqb a c) eqn:E; [|discriminate].
  apply Ascii.eqb_eq in E; subst c.
  intros H; apply IH in H; now subst.
Qed.

Lemma strip_prefix_app (p rest : str) : strip_prefix p (p ++ rest) = Some rest.
Proof.
  induction p as [|a p IH]; simpl; [reflexivity|].
  now rewrite Ascii.eqb_refl.
Qed.

Lemma star_sound cls caps s (k : cont A) x :
  star cls caps s k = Some x ->
  exists a b, s = a ++ b /\ forallb cls a = true /\ k caps b = Some x.
Proof.
  induction s as [|c s IH]; simpl.
  - intros H; now exists [], [].
  - destruct (cls c) eqn:Ec.
    + destruct (star cls caps s k) as [y|] eqn:Es.
      * intros [= ->]. destruct (IH eq_refl) as (a & b & -> & Ha & Hk).
        exists (c :: a), b; simpl; now rewrite Ec.
      * intros H; now exists [], (c :: s).
    + intros H; now exists [], (c :: s).
Qed.


(** The greedy choice: when the class stops at [b] and the rest of the
    pattern accepts [b], that is the answer. *)
Lemma star_max cls caps a b (k : cont A) x :
  forallb cls a = true -> stops cls b -> k caps b = Some x ->
  star cls caps (a ++ b) k = Some x.
Proof.
  intros Ha Hb Hk; induction a as [|c a IH]; simpl in *.
  - destruct b as [|c b]; simpl in *; [assumption|]. now rewrite Hb.
  - apply andb_prop in Ha as [Hc Ha]. now rewrite Hc, (IH Ha).
Qed.

Lemma exec_sound r : forall caps s (k : cont A) x,
  exec r caps s k = Some x ->
  exists a g b, s = a ++ b /\ Matches r a g /\ k (caps ++ g) b = Some x.
Proof.
  induction r as [l|cls|cls|r1 IH1 r2 IH2|r IH]; simpl; intros caps s k x H.
  - destruct (strip_prefix l s) as [rest|] eqn:E; [|discriminate].
    apply strip_prefix_Some in E; subst s.
    exists l, [], rest; rewrite app_nil_r; repeat split; [constructor | assumption].
  - apply star_sound in H as (a & b & -> & Ha & Hk).
    exists a, [], b; rewrite app_nil_r; repeat split; [now constructor | assumption].
  - destruct s as [|c s]; [discriminate|].
    destruct (cls c) eqn:Ec; [|discriminate].
    apply star_sound in H as (a & b & -> & Ha & Hk).
    exists (c :: a), [], b; rewrite app_nil_r; repeat split; [|assumption].
    constructor; [discriminate | simpl; now rewrite Ec].
  - apply IH1 in H as (a1 & g1 & b1 & -> & M1 & H).
    apply IH2 in H as (a2 & g2 & b2 & -> & M2 & H).
    exists (a1 ++ a2), (g1 ++ g2), b2.
    rewrite <- !app_assoc in *; repeat split; [now constructor | assumption].
  - apply IH in H as (a & g & b & -> & M & H).
    exists a, (g ++ [a]), b; repeat split; [now constructor|].
    rewrite length_app, Nat.add_sub, firstn_app, firstn_all, Nat.sub_diag in H.
    simpl in H. now rewrite app_nil_r, <- app_assoc in H.
Qed.


End ReFacts.

Section ScanFacts.

Import Re.

Variable r : regex.

Lemma match_at_sound s g rest :
  match_at r s = Some (g, rest) -> exists a, s = a ++ rest /\ Matches r a g.
Proof.
  unfold match_at; intros H.
  apply exec_sound in H as (a & g' & b & -> & M & [= <- <-]).
  now exists a.
Qed.


Lemma scan_skip : forall s n, scan r n s = scan r 0 (skipn n s).
Proof.
  induction s as [|c s IH]; intros [|n]; simpl; try reflexivity.
  apply IH.
Qed.

Lemma scan_miss c s :
  match_at r (c :: s) = None -> scan r 0 (c :: s) = Text c :: scan r 0 s.
Proof. simpl; now intros ->. Qed.

Lemma scan_hit a b g :
  a <> [] -> match_at r (a ++ b) = Some (g, b) ->
  scan r 0 (a ++ b) = Hit a g :: scan r 0 b.
Proof.
  destruct a as [|c a]; [congruence|]; intros _ H.
  change ((c :: a) ++ b) with (c :: a ++ b) in *.
  cbn [scan]. rewrite H.
  assert (length (c :: a ++ b) - length b = S (length a)) as ->
    by (cbn [length]; rewrite length_app; lia).
  rewrite scan_skip, skipn_app, skipn_all, Nat.sub_diag. simpl skipn.
  f_equal. f_equal.
  change (c :: a ++ b) with ((c :: a) ++ b).
  rewrite firstn_app.
  assert (S (length a) - length (c :: a) = 0) as -> by (cbn [length]; lia).
  simpl firstn at 2. rewrite app_nil_r.
  apply (firstn_all (c :: a)).
Qed.


Lemma scan_hits_match : forall s n, each_hit (Matches r) (scan r n s).
Proof.
  unfold each_hit.
  induction s as [|c s IH]; intros [|n]; cbn [scan]; try constructor; try apply IH.
  destruct (match_at r (c :: s)) as [[caps rest]|] eqn:E.
  - destruct (length (c :: s) - length rest) as [|m] eqn:El.
    + constructor; [exact I | apply IH].
    + constructor; [|apply IH].
      apply match_at_sound in E as (a & E & M).
      assert (length a = S m) as Hl.
      { rewrite E, length_app in El. lia. }
      rewrite E, <- Hl, firstn_app, firstn_all, Nat.sub_diag.
      cbn [firstn]. now rewrite app_nil_r.
  - constructor; [exact I | apply IH].
Qed.

Lemma scan_no_match : forall s,
  ~ contains_match r s -> scan r 0 s = map Text s.
Proof.
  induction s as [|c s IH]; intros N; [reflexivity|].
  assert (match_at r (c :: s) = None) as E.
  { destruct (match_at r (c :: s)) as [[g rest]|] eqn:E; [|reflexivity].
    apply match_at_sound in E as (a & E & M).
    exfalso; apply N. exists [], a, rest, g. now split. }
  rewrite (scan_miss _ _ E). simpl. f_equal. apply IH.
  intros (pre & m & post & g & -> & M). apply N.
  exists (c :: pre), m, post, g. now split.
Qed.



Lemma render_text repl (s : str) : render repl (map Text s) = Some s.
Proof. induction s as [|c s IH]; simpl; [reflexivity | now rewrite IH]. Qed.

Lemma sub_no_match repl s : ~ contains_match r s -> sub r repl s = Some s.
Proof. intros N. unfold sub. rewrite (scan_no_match _ N). apply render_text. Qed.

End ScanFacts.

(** * The bit-order transform *)

Lemma all_bytes_In (v : N) : (v <= 255)%N -> In v all_bytes.
Proof.
  intros H. unfold all_bytes.
  rewrite <- (N2Nat.id v). apply in_map. apply in_seq. lia.
Qed.

Lemma for_all_bytes (P : N -> bool) :
  forallb P all_bytes = true -> forall v, (v <= 255)%N -> P v = true.
Proof.
  intros H v Hv. rewrite forallb_forall in H. apply H, all_bytes_In, Hv.
Qed.

Lemma reverse_ok_all : forallb reverse_ok all_bytes = true.
Proof. vm_compute. reflexivity. Qed.

Lemma literal_ok_all : forallb literal_ok all_bytes = true.
Proof. vm_compute. reflexivity. Qed.

Lemma reverse_bits_byte (v : N) :
  (v <= 255)%N ->
  exists r, reverse_bits v = Some r /\ (r <= 255)%N /\ reverse_bits r = Some v.
Proof.
  intros Hv. pose proof (for_all_bytes _ reverse_ok_all v Hv) as H.
  unfold reverse_ok in H.
  destruct (reverse_bits v) as [r|]; [|discriminate].
  apply andb_prop in H as [H _]. apply andb_prop in H as [Hr H].
  destruct (reverse_bits r) as [v'|] eqn:Er; [|discriminate].
  apply N.eqb_eq in H; subst v'. apply N.leb_le in Hr.
  now exists r.
Qed.

(** Bit [i] of the reversed byte is bit [7 - i] of the byte. *)
Lemma reverse_bits_swaps_bits (v r : N) (i : nat) :
  (v <= 255)%N -> reverse_bits v = Some r -> i < 8 ->
  N.testbit r (N.of_nat i) = N.testbit v (7 - N.of_nat i).
Proof.
  intros Hv Hr Hi. pose proof (for_all_bytes _ reverse_ok_all v Hv) as H.
  unfold reverse_ok in H. rewrite Hr in H.
  apply andb_prop in H as [_ H]. rewrite forallb_forall in H.
  apply eqb_prop, H, in_seq. lia.
Qed.

(** C1: for every byte value [v] in [0,255], [reverse_bits] returns a value
    in [0,255], and applying it to that value returns [v]. *)
Theorem reverse_bits_involution (v : N) (Hv : (v <= 255)%N) :
  exists r, reverse_bits v = Some r /\ (0 <= r <= 255)%N /\
            reverse_bits r = Some v.
Proof.
  destruct (reverse_bits_byte v Hv) as (r & H1 & H2 & H3).
  exists r. repeat split; try assumption. apply N.le_0_l.
Qed.

Lemma reverse_bits_involution_witness :
  (165 <= 255)%N /\
  exists r, reverse_bits 165 = Some r /\ (0 <= r <= 255)%N /\
            reverse_bits r = Some 165%N.
Proof.
  split; [vm_compute; discriminate|].
  apply (reverse_bits_involution 165). vm_compute; discriminate.
Defined.

(** Hence the transform is one-to-one on bytes. *)
Corollary reverse_bits_injective (v w r : N) :
  (v <= 255)%N -> (w <= 255)%N ->
  reverse_bits v = Some r -> reverse_bits w = Some r -> v = w.
Proof.
  intros Hv Hw Ev Ew.
  destruct (reverse_bits_byte v Hv) as (r1 & E1 & _ & B1).
  destruct (reverse_bits_byte w Hw) as (r2 & E2 & _ & B2).
  congruence.
Qed.

(** * Characters, [strip] and [int] *)

Ltac each_char c :=
  destruct c as [[] [] [] [] [] [] [] []]; vm_compute;
  intros; first [reflexivity | discriminate | congruence].

Lemma hex_not_space c : is_hex c = true -> isspace c = false.
Proof. each_char c. Qed.

Lemma bin_not_space c : is_bin c = true -> isspace c = false.
Proof. each_char c. Qed.

Lemma bin_digit c :
  is_bin c = true ->
  match digit_val c with Some d => (d <? 2)%N | None => false end = true.
Proof. each_char c. Qed.

Lemma bin_not_b c :
  is_bin c = true -> is_char "b" c || is_char "B" c = false.
Proof. each_char c. Qed.

Lemma hex_digit c :
  is_hex c = true ->
  match digit_val c with Some d => (d <? 16)%N | None => false end = true.
Proof. each_char c. Qed.

Lemma word_not_space c : is_word c = true -> isspace c = false.
Proof. each_char c. Qed.

Lemma lstrip_stops p s : stops p s -> lstrip p s = s.
Proof. destruct s as [|c s]; simpl; [reflexivity | now intros ->]. Qed.

Lemma rstrip_stops p s : stops p (rev s) -> rstrip p s = s.
Proof.
  intros H. unfold rstrip. rewrite (lstrip_stops _ _ H). apply rev_involutive.
Qed.

Lemma strip_with_stops p s :
  stops p s -> stops p (rev s) -> strip_with p s = s.
Proof.
  intros H1 H2. unfold strip_with. rewrite (lstrip_stops _ _ H1).
  now apply rstrip_stops.
Qed.

Lemma not_space_not_int_space c : isspace c = false -> int_space c = false.
Proof. each_char c. Qed.

Lemma stops_int_space s : stops isspace s -> stops int_space s.
Proof. destruct s; simpl; [trivial | apply not_space_not_int_space]. Qed.

Lemma strip_stops s :
  stops isspace s -> stops isspace (rev s) ->
  strip s = s /\ strip_with int_space s = s.
Proof.
  intros H1 H2. split; apply strip_with_stops;
    assumption || now apply stops_int_space.
Qed.

Lemma forallb_rev (p : ascii -> bool) s :
  forallb p s = true -> forallb p (rev s) = true.
Proof.
  rewrite !forallb_forall. intros H c Hc. apply H. now apply in_rev.
Qed.

Lemma forallb_stops (p q : ascii -> bool) s :
  (forall c, p c = true -> q c = false) -> forallb p s = true -> stops q s.
Proof.
  intros Hpq. destruct s as [|c s]; simpl; [trivial|].
  intros H. apply andb_prop in H as [H _]. now apply Hpq.
Qed.

Lemma int_digits_bin : forall s acc,
  forallb is_bin s = true -> exists v, int_digits 2 acc s = Some v.
Proof.
  induction s as [|c s IH]; simpl; intros acc H; [now exists acc|].
  apply andb_prop in H as [Hc Hs]. apply bin_digit in Hc.
  destruct (digit_val c) as [d|]; [|discriminate]. rewrite Hc. now apply IH.
Qed.

Lemma int_digits_hex : forall ds acc,
  forallb is_hex ds = true ->
  int_digits 16 acc ds =
  Some (fold_left (fun a c => (a * 16 + match digit_val c with
                                        | Some d => d
                                        | None => 0
                                        end)%N) ds acc).
Proof.
  induction ds as [|c ds IH]; simpl; intros acc H; [reflexivity|].
  apply andb_prop in H as [Hc Hs]. apply hex_digit in Hc.
  destruct (digit_val c) as [d|]; [|discriminate]. rewrite Hc. now apply IH.
Qed.

(** [int] reads every string of binary digits. *)
Lemma int_bin s :
  s <> [] -> forallb is_bin s = true -> exists v, int s 2 = Some v.
Proof.
  intros Hne Hs. unfold int.
  rewrite (proj2 (strip_stops s
    (forallb_stops _ _ _ bin_not_space Hs)
    (forallb_stops _ _ _ bin_not_space (forallb_rev _ _ Hs)))).
  assert (drop_base_prefix 2 s = s) as ->.
  { destruct s as [|z [|p s']]; try reflexivity. simpl in Hs.
    apply andb_prop in Hs as [_ Hs]. apply andb_prop in Hs as [Hp _].
    unfold drop_base_prefix. rewrite (bin_not_b _ Hp).
    cbn. now rewrite andb_false_r. }
  destruct s as [|c s]; [congruence|]. now apply int_digits_bin.
Qed.

(** [int] reads every hit of [0x[0-9a-fA-F]+]. *)
Lemma hex_literal_strip ds :
  ds <> [] -> forallb is_hex ds = true ->
  strip (txt "0x" ++ ds) = txt "0x" ++ ds /\
  strip_with int_space (txt "0x" ++ ds) = txt "0x" ++ ds.
Proof.
  intros Hne Hs. apply strip_stops.
  - reflexivity.
  - cbn [txt list_ascii_of_string app]. simpl rev.
    rewrite <- !app_assoc.
    destruct (rev ds) as [|c l] eqn:E.
    + apply (f_equal (@rev _)) in E. rewrite rev_involutive in E. now subst.
    + simpl. apply hex_not_space.
      apply forallb_rev in Hs. rewrite E in Hs. simpl in Hs.
      now apply andb_prop in Hs as [Hs _].
Qed.

Lemma int_hex_literal ds :
  ds <> [] -> forallb is_hex ds = true ->
  int (strip (txt "0x" ++ ds)) 16 = Some (hex_val ds).
Proof.
  intros Hne Hs. destruct (hex_literal_strip _ Hne Hs) as [E1 E2].
  unfold int. rewrite E1, E2.
  cbn [txt list_ascii_of_string app drop_base_prefix].
  replace (is_char "0" "0" && _) with true by reflexivity.
  destruct ds as [|c ds]; [congruence|]. now apply int_digits_hex.
Qed.

Lemma bits_lsb_bin p : forallb is_bin (bits_lsb p) = true.
Proof. induction p; simpl; auto. Qed.

Lemma format_08b_bin n :
  format_08b n <> [] /\ forallb is_bin (format_08b n) = true.
Proof.
  unfold format_08b, zfill. split.
  - destruct n as [|p]; simpl.
    + discriminate.
    + intros H. apply app_eq_nil in H as [_ H].
      apply (f_equal (@rev _)) in H. rewrite rev_involutive in H.
      destruct p; discriminate.
  - rewrite forallb_app. apply andb_true_intro. split.
    + apply forallb_forall. intros c Hc. apply repeat_spec in Hc. now subst.
    + destruct n as [|p]; [reflexivity|]. apply forallb_rev, bits_lsb_bin.
Qed.

(** [reverse_bits] never fails (on a number that is not negative). *)
Lemma reverse_bits_total n : exists r, reverse_bits n = Some r.
Proof.
  destruct (format_08b_bin n) as [Hne Hb]. unfold reverse_bits.
  apply int_bin.
  - intros H. apply Hne. apply (f_equal (@rev _)) in H.
    now rewrite rev_involutive in H.
  - now apply forallb_rev.
Qed.

Lemma mapM_total {X Y} (f : X -> option Y) (l : list X) :
  Forall (fun x => exists y, f x = Some y) l -> exists ys, mapM f l = Some ys.
Proof.
  induction 1 as [|x l [y Hy] _ [ys IH]]; simpl.
  - now exists [].
  - rewrite Hy, IH. simpl. now exists (y :: ys).
Qed.

Lemma mapM_length {X Y} (f : X -> option Y) : forall l ys,
  mapM f l = Some ys -> length ys = length l.
Proof.
  induction l as [|x l IH]; simpl; intros ys H.
  - now injection H as <-.
  - destruct (f x); [|discriminate]. simpl in H.
    destruct (mapM f l) as [bs|]; [|discriminate]. simpl in H.
    injection H as <-. simpl. now rewrite (IH bs).
Qed.

Lemma reverse_all_total vs : exists ws, mapM reverse_bits vs = Some ws.
Proof.
  apply mapM_total. apply Forall_forall. intros v _. apply reverse_bits_total.
Qed.

(** * The shape of the matches *)

Ltac inv_matches :=
  repeat match goal with
  | H : Matches (_ ;; _) _ _ |- _ => inversion H; subst; clear H
  | H : Matches (Lit _) _ _ |- _ => inversion H; subst; clear H
  | H : Matches (Star _) _ _ |- _ => inversion H; subst; clear H
  | H : Matches (Plus _) _ _ |- _ => inversion H; subst; clear H
  | H : Matches (Group _) _ _ |- _ => inversion H; subst; clear H
  end.

Lemma hex_pattern_inv w g :
  Matches hex_pattern w g ->
  g = [] /\ exists ds, w = txt "0x" ++ ds /\ run is_hex ds.
Proof.
  unfold hex_pattern; intros H; inv_matches.
  split; [reflexivity|]. eexists; split; [reflexivity|]. now split.
Qed.

Lemma pattern_inv m g :
  Matches pattern m g ->
  exists s1 s2 s3 name s4 s5 s6 s7 body,
    m = decl_text s1 s2 s3 name s4 s5 s6 s7 body /\ g = [name; body] /\
    run isspace s1 /\ run isspace s2 /\ run isspace s3 /\ run is_word name /\
    blank s4 /\ blank s5 /\ blank s6 /\ blank s7 /\ run (is_not "}") body.
Proof.
  unfold pattern; intros H; inv_matches.
  do 9 eexists. split; [reflexivity|]. split; [reflexivity|].
  unfold run, blank. repeat split; assumption.
Qed.

Lemma draw_pattern_inv m g :
  Matches draw_pattern m g ->
  exists s1 s2 s3 x s4 y s5 bitmap s6 w s7 h s8 t,
    m = call_text s1 s2 s3 x s4 y s5 bitmap s6 w s7 h s8 t /\
    g = [x; y; bitmap; w; h] /\
    blank s1 /\ blank s2 /\ blank s3 /\ blank s4 /\ blank s5 /\ blank s6 /\
    blank s7 /\ blank s8 /\
    run (is_not ",") x /\ run (is_not ",") y /\ run (is_not ",") bitmap /\
    run (is_not ",") w /\ run (is_not ",") h /\ run (is_not ")") t.
Proof.
  unfold draw_pattern; intros H; inv_matches.
  do 14 eexists. split; [reflexivity|]. split; [reflexivity|].
  unfold run, blank. repeat split; assumption.
Qed.

(** No match of the three patterns is empty, so the rules of [re] for empty
    matches never come into play. *)
Lemma matches_nonempty m g :
  Matches pattern m g \/ Matches draw_pattern m g \/ Matches hex_pattern m g ->
  m <> [].
Proof.
  intros [M|[M|M]].
  - apply pattern_inv in M
      as (s1 & s2 & s3 & n & s4 & s5 & s6 & s7 & b & -> & _). discriminate.
  - apply draw_pattern_inv in M
      as (s1 & s2 & s3 & x & s4 & y & s5 & b & s6 & w & s7 & h & s8 & t & -> & _).
    discriminate.
  - apply hex_pattern_inv in M as (_ & ds & -> & _). discriminate.
Qed.

(** * Nothing in the two passes raises *)

Lemma hits_each P l :
  each_hit P l -> Forall (fun w => exists g, P w g) (hits l).
Proof.
  induction 1 as [|[c|w g] l H _ IH]; simpl; auto.
  constructor; [now exists g | assumption].
Qed.

Lemma findall_hex body :
  Forall (fun w => exists ds, w = txt "0x" ++ ds /\ run is_hex ds)
         (findall hex_pattern body).
Proof.
  pose proof (hits_each _ _ (scan_hits_match hex_pattern body 0)) as H.
  unfold findall. eapply Forall_impl; [|exact H].
  intros w [g M]. now apply hex_pattern_inv in M.
Qed.

Lemma parse_values_total body : exists vs, parse_values body = Some vs.
Proof.
  apply mapM_total. eapply Forall_impl; [|apply findall_hex].
  intros w (ds & -> & Hne & Hds). eexists. now apply int_hex_literal.
Qed.

Lemma replacement_total w g : exists out, replacement w g = Some out.
Proof.
  unfold replacement.
  destruct (parse_values_total (nth 1 g [])) as [vs ->].
  destruct (reverse_all_total vs) as [ws E]. simpl. rewrite E. simpl.
  now eexists.
Qed.

Lemma render_total repl :
  (forall w g, exists x, repl w g = Some x) ->
  forall l, exists t, render repl l = Some t.
Proof.
  intros Hr. induction l as [|[c|w g] l [t IH]]; simpl.
  - now eexists.
  - rewrite IH. now eexists.
  - destruct (Hr w g) as [x ->]. rewrite IH. now eexists.
Qed.

Lemma array_pass_total content : exists out, array_pass content = Some out.
Proof. apply render_total, replacement_total. Qed.

Lemma call_pass_total content : exists out, call_pass content = Some out.
Proof. apply render_total. intros w g. now eexists. Qed.

Lemma both_passes_total content : exists out, both_passes content = Some out.
Proof.
  unfold both_passes. destruct (array_pass_total content) as [x ->].
  apply call_pass_total.
Qed.

(** [process_file] fails only when the file cannot be read. *)
Lemma process_file_total fs filename content :
  fs filename = Some content -> exists fs', process_file fs filename = Some fs'.
Proof.
  intros E. unfold process_file. rewrite E. simpl.
  destruct (both_passes_total content) as [out ->]. now eexists.
Qed.

(** * The array pass on the example of the specification *)

(** C2: the array pass turns
    [const unsigned char icon[] PROGMEM = {0x01, 0x80};] into
    [const unsigned char icon[] PROGMEM = {0x80, 0x01};]. *)
Theorem array_pass_example :
  array_pass (txt "const unsigned char icon[] PROGMEM = {0x01, 0x80};") =
  Some (txt "const unsigned char icon[] PROGMEM = {0x80, 0x01};").
Proof. vm_compute. reflexivity. Qed.

(** * Text without matches *)




(** * The call pass *)



(** * The declaration around the bytes *)

(** C9 fails as stated: a declaration written with two spaces after
    [const] is matched, and comes out with one. *)
Lemma spacing_not_preserved :
  let m := txt "const  unsigned char icon[] PROGMEM = {0x01};" in
  match_at pattern m = Some ([txt "icon"; txt "0x01"], []) /\
  exists out,
    array_pass m = Some out /\
    starts_with (txt "const  unsigned char icon[] PROGMEM = {") out = false.
Proof.
  split; [vm_compute; reflexivity|].
  eexists. split; vm_compute; reflexivity.
Qed.

(** C9, as the code has it: every matched declaration
    [const<s1>unsigned<s2>char<s3>NAME<s4>[]<s5>PROGMEM<s6>=<s7>{BODY};] is
    replaced by [const unsigned char NAME[] PROGMEM = {BYTES};]: the words
    and the name as they were, single spaces whatever [s1]..[s7] were, and
    for [BYTES] the reversed values of [BODY] in the layout of [wrap]. *)
Theorem replacement_canonical (content : str) :
  each_hit (fun m g =>
    exists s1 s2 s3 name s4 s5 s6 s7 body values new_values,
      m = decl_text s1 s2 s3 name s4 s5 s6 s7 body /\
      run isspace s1 /\ run isspace s2 /\ run isspace s3 /\
      run is_word name /\ blank s4 /\ blank s5 /\ blank s6 /\ blank s7 /\
      run (is_not "}") body /\
      parse_values body = Some values /\
      mapM reverse_bits values = Some new_values /\
      replacement m g =
        Some (decl_text sp sp sp name [] sp sp sp (wrap new_values)))
    (scan pattern 0 content).
Proof.
  eapply Forall_impl; [|apply (scan_hits_match pattern content 0)].
  intros [c|m g]; [trivial|]. intros M.
  apply pattern_inv in M
    as (s1 & s2 & s3 & name & s4 & s5 & s6 & s7 & body & -> & -> & M).
  destruct (parse_values_total body) as [values Hv].
  destruct (reverse_all_total values) as [new_values Hn].
  exists s1, s2, s3, name, s4, s5, s6, s7, body, values, new_values.
  split; [reflexivity|].
  repeat match goal with H : _ /\ _ |- _ => destruct H end.
  repeat (split; [assumption|]).
  unfold replacement. simpl nth. rewrite Hv. simpl. rewrite Hn. reflexivity.
Qed.

(** * The call pass, twice *)


Lemma opener_of_call m g :
  Matches draw_pattern m g ->
  exists a b, m = a ++ b /\ Matches call_opener a [].
Proof.
  intros M. apply draw_pattern_inv in M
    as (s1 & s2 & s3 & x & s4 & y & s5 & bm & s6 & w & s7 & h & s8 & t
        & -> & _ & H1 & _).
  exists (txt "//" ++ s1 ++ txt "display.drawBitmap").
  eexists. split.
  - unfold call_text. rewrite <- !app_assoc. reflexivity.
  - unfold call_opener.
    change (@nil str) with (@nil str ++ (@nil str ++ @nil str)).
    repeat constructor. exact H1.
Qed.

Lemma no_opener_no_call s :
  ~ contains_match call_opener s -> ~ contains_match draw_pattern s.
Proof.
  intros N (pre & m & post & g & -> & M).
  apply opener_of_call in M as (a & b & -> & Ma).
  apply N. exists pre, a, (b ++ post), []. split; [|assumption].
  now rewrite <- app_assoc.
Qed.



(** In particular the two statements written for fragments without [/] are
    left alone by a further call pass. *)
Lemma starts_with_strip_prefix p s :
  starts_with p s = false -> strip_prefix p s = None.
Proof.
  revert s; induction p as [|a p IH]; intros [|c s]; simpl; try congruence.
  destruct (Ascii.eqb a c); simpl; auto.
Qed.

Lemma no_slash_no_opener : forall s,
  forallb (is_not "/") s = true -> ~ contains_match call_opener s.
Proof.
  intros s H (pre & m & post & g & -> & M).
  unfold call_opener in M. inv_matches.
  rewrite !forallb_app in H. apply andb_prop in H as [_ H].
  apply andb_prop in H as [H _]. apply andb_prop in H as [H _].
  discriminate H.
Qed.

Lemma draw_call_settled (x y w h bitmap : str) :
  forallb (is_not "/") x = true -> forallb (is_not "/") y = true ->
  forallb (is_not "/") w = true -> forallb (is_not "/") h = true ->
  forallb (is_not "/") bitmap = true ->
  call_pass (draw_call x y w h bitmap) = Some (draw_call x y w h bitmap).
Proof.
  intros Hx Hy Hw Hh Hb.
  apply sub_no_match, no_opener_no_call, no_slash_no_opener.
  unfold draw_call.
  rewrite !forallb_app, Hx, Hy, Hw, Hh, Hb. reflexivity.
Qed.

(** * Finding the byte literals *)

Lemma star_self cls caps : forall s,
  star cls caps s (fun c r => Some (c, r)) = Some (caps, lstrip cls s).
Proof.
  induction s as [|c s IH]; simpl; [reflexivity|].
  destruct (cls c); [now rewrite IH | reflexivity].
Qed.

(** What [0x[0-9a-fA-F]+] does at the start of a text. *)
Lemma hex_match_at s :
  match_at hex_pattern s =
  match strip_prefix (txt "0x") s with
  | Some (c :: t) => if is_hex c then Some ([], lstrip is_hex t) else None
  | _ => None
  end.
Proof.
  unfold match_at, hex_pattern. cbn [exec].
  destruct (strip_prefix (txt "0x") s) as [[|c t]|]; try reflexivity.
  destruct (is_hex c); [apply star_self | reflexivity].
Qed.

Lemma hex_no_prefix s :
  starts_with (txt "0x") s = false -> match_at hex_pattern s = None.
Proof.
  intros H. rewrite hex_match_at. now rewrite (starts_with_strip_prefix _ _ H).
Qed.

Lemma lstrip_app_all p a b :
  forallb p a = true -> stops p b -> lstrip p (a ++ b) = b.
Proof.
  intros Ha Hb. induction a as [|c a IH]; simpl in *.
  - now apply lstrip_stops.
  - apply andb_prop in Ha as [Hc Ha]. rewrite Hc. now apply IH.
Qed.

Lemma hex_match_run ds rest :
  run is_hex ds -> stops is_hex rest ->
  match_at hex_pattern (txt "0x" ++ ds ++ rest) = Some ([], rest).
Proof.
  intros [Hne Hds] Hrest. rewrite hex_match_at, strip_prefix_app.
  destruct ds as [|c ds]; [congruence|]. simpl in Hds.
  apply andb_prop in Hds as [Hc Hds]. cbn [app]. cbv iota. rewrite Hc.
  now rewrite lstrip_app_all.
Qed.

(** A literal followed by something that is not a digit is found whole. *)
Lemma findall_literal ds rest :
  run is_hex ds -> stops is_hex rest ->
  findall hex_pattern (txt "0x" ++ ds ++ rest) =
  (txt "0x" ++ ds) :: findall hex_pattern rest.
Proof.
  intros Hds Hrest. unfold findall.
  rewrite app_assoc, (scan_hit hex_pattern (txt "0x" ++ ds) rest []).
  - reflexivity.
  - discriminate.
  - rewrite <- app_assoc. now apply hex_match_run.
Qed.

Lemma starts_with_next (c : ascii) (g rest : str) :
  starts_with (txt "0x") (c :: g ++ firstn 1 rest) =
  starts_with (txt "0x") (c :: g ++ rest).
Proof.
  cbn [txt list_ascii_of_string starts_with].
  destruct g as [|y g]; simpl; [|reflexivity].
  destruct rest as [|z rest]; simpl; [reflexivity|].
  now rewrite !andb_true_r.
Qed.

(** Text without [0x] (up to the character after it) holds no literal. *)
Lemma findall_other : forall g rest,
  contains (txt "0x") (g ++ firstn 1 rest) = false ->
  findall hex_pattern (g ++ rest) = findall hex_pattern rest.
Proof.
  induction g as [|c g IH]; intros rest H; [reflexivity|].
  change ((c :: g) ++ firstn 1 rest) with (c :: g ++ firstn 1 rest) in H.
  cbn [contains] in H. apply orb_false_elim in H as [H1 H2].
  rewrite starts_with_next in H1.
  unfold findall in *. change ((c :: g) ++ rest) with (c :: g ++ rest).
  rewrite scan_miss by now apply hex_no_prefix.
  simpl hits. now apply IH.
Qed.

(** * Upper and lower case digits *)

Section LowerHex.

Lemma lower_hex_is_hex c : is_hex (lower_hex c) = is_hex c.
Proof. each_char c. Qed.

Lemma lower_hex_space c : isspace (lower_hex c) = isspace c.
Proof. each_char c. Qed.

Lemma lower_hex_digit c : digit_val (lower_hex c) = digit_val c.
Proof. each_char c. Qed.

Lemma lower_hex_0 c : Ascii.eqb "0" (lower_hex c) = Ascii.eqb "0" c.
Proof. each_char c. Qed.

Lemma lower_hex_x c : Ascii.eqb "x" (lower_hex c) = Ascii.eqb "x" c.
Proof. each_char c. Qed.

Lemma lower_hex_X c : Ascii.eqb "X" (lower_hex c) = Ascii.eqb "X" c.
Proof. each_char c. Qed.

Lemma lstrip_map (f : ascii -> ascii) p :
  (forall c, p (f c) = p c) ->
  forall s, lstrip p (map f s) = map f (lstrip p s).
Proof.
  intros Hp. induction s as [|c s IH]; simpl; [reflexivity|].
  rewrite Hp. destruct (p c); [apply IH | reflexivity].
Qed.

Lemma lower_hex_int_space c : int_space (lower_hex c) = int_space c.
Proof. each_char c. Qed.

Lemma strip_with_lower p s :
  (forall c, p (lower_hex c) = p c) ->
  strip_with p (map lower_hex s) = map lower_hex (strip_with p s).
Proof.
  intros Hp. unfold strip_with, rstrip.
  now rewrite !(lstrip_map _ _ Hp), <- !map_rev, !(lstrip_map _ _ Hp), map_rev.
Qed.

Lemma strip_lower s : strip (map lower_hex s) = map lower_hex (strip s).
Proof. apply strip_with_lower, lower_hex_space. Qed.

Lemma int_digits_lower : forall ds acc,
  int_digits 16 acc (map lower_hex ds) = int_digits 16 acc ds.
Proof.
  induction ds as [|c ds IH]; simpl; intros acc; [reflexivity|].
  rewrite lower_hex_digit. destruct (digit_val c) as [d|]; [|reflexivity].
  destruct (d <? 16)%N; [apply IH | reflexivity].
Qed.

Lemma int_lower s : int (map lower_hex s) 16 = int s 16.
Proof.
  unfold int. rewrite (strip_with_lower _ _ lower_hex_int_space).
  generalize (strip_with int_space s) as u. intros u.
  assert (drop_base_prefix 16 (map lower_hex u) =
          map lower_hex (drop_base_prefix 16 u)) as ->.
  { destruct u as [|z [|p t]]; try reflexivity.
    cbn [map drop_base_prefix]. unfold is_char.
    rewrite lower_hex_0, lower_hex_x, lower_hex_X.
    now destruct (_ && _). }
  destruct (drop_base_prefix 16 u) as [|c ds]; [reflexivity|].
  apply (int_digits_lower (c :: ds)).
Qed.

Lemma hex_match_lower s :
  match_at hex_pattern (map lower_hex s) =
  option_map (fun '(g, rest) => (g, map lower_hex rest)) (match_at hex_pattern s).
Proof.
  rewrite !hex_match_at.
  destruct s as [|z [|x t]]; cbn [map txt list_ascii_of_string strip_prefix];
    try reflexivity.
  - rewrite lower_hex_0. now destruct (Ascii.eqb "0" z).
  - rewrite lower_hex_0, lower_hex_x.
    destruct (Ascii.eqb "0" z); [|reflexivity].
    destruct (Ascii.eqb "x" x); [|reflexivity].
    destruct t as [|c t]; [reflexivity|]. cbn [map].
    rewrite lower_hex_is_hex. destruct (is_hex c); [|reflexivity].
    simpl. now rewrite (lstrip_map _ _ lower_hex_is_hex).
Qed.

Lemma scan_lower : forall s n,
  scan hex_pattern n (map lower_hex s) =
  map (map_seg lower_hex) (scan hex_pattern n s).
Proof.
  induction s as [|c s IH]; intros [|n]; try reflexivity.
  - change (map lower_hex (c :: s)) with (lower_hex c :: map lower_hex s).
    cbn [scan].
    change (lower_hex c :: map lower_hex s) with (map lower_hex (c :: s)).
    rewrite hex_match_lower.
    destruct (match_at hex_pattern (c :: s)) as [[g rest]|] eqn:E; simpl option_map.
    + rewrite !length_map.
      destruct (length (c :: s) - length rest) as [|m].
      * cbn [map map_seg]. now rewrite IH.
      * cbn [map map_seg]. rewrite IH. f_equal. f_equal.
        -- change (lower_hex c :: map lower_hex s) with (map lower_hex (c :: s)).
           now rewrite <- firstn_map.
        -- rewrite hex_match_at in E.
           destruct (strip_prefix (txt "0x") (c :: s)) as [[|y t]|];
             try discriminate.
           destruct (is_hex y); [|discriminate]. now injection E as <- _.
    + cbn [map map_seg]. now rewrite IH.
  - cbn [map scan]. apply IH.
Qed.

Lemma hits_map f : forall l, hits (map (map_seg f) l) = map (map f) (hits l).
Proof.
  induction l as [|[c|w g] l IH]; simpl; [reflexivity | assumption |].
  now rewrite IH.
Qed.

Lemma mapM_ext_map {X Y} (f : X -> option Y) (h : X -> X) :
  (forall x, f (h x) = f x) -> forall l, mapM f (map h l) = mapM f l.
Proof.
  intros Hf. induction l as [|x l IH]; simpl; [reflexivity|].
  now rewrite Hf, IH.
Qed.

Lemma parse_values_lower body :
  parse_values (map lower_hex body) = parse_values body.
Proof.
  unfold parse_values, findall. rewrite scan_lower, hits_map.
  apply mapM_ext_map. intros x. now rewrite strip_lower, int_lower.
Qed.

End LowerHex.

(** * The serializer *)

Section Serializer.

Lemma kept_not_comma c : is_kept c = true -> Ascii.eqb "," c = false.
Proof. each_char c. Qed.

Lemma kept_not_stripped c : is_kept c = true -> strip_set c = false.
Proof. unfold is_kept, strip_set. now intros H%negb_true_iff. Qed.

Lemma lower_hex_kept c : is_lower_hex c = true -> is_kept c = true.
Proof. each_char c. Qed.

Lemma split_go_solid : forall x cur rest,
  forallb is_kept x = true ->
  split_go comma_space 0 cur (x ++ rest) = split_go comma_space 0 (rev x ++ cur) rest.
Proof.
  induction x as [|c x IH]; intros cur rest H; [reflexivity|].
  simpl in H. apply andb_prop in H as [Hc Hx].
  change ((c :: x) ++ rest) with (c :: x ++ rest).
  unfold comma_space. cbn [split_go txt list_ascii_of_string starts_with].
  rewrite (kept_not_comma _ Hc). cbn [andb]. fold comma_space.
  rewrite IH by assumption. simpl rev. now rewrite <- app_assoc.
Qed.

Lemma split_go_sep cur rest :
  split_go comma_space 0 cur (comma_space ++ rest) = rev cur :: split_go comma_space 0 [] rest.
Proof. reflexivity. Qed.

Lemma split_go_join : forall l x cur,
  Forall solid (x :: l) ->
  split_go comma_space 0 cur (join comma_space (x :: l)) = (rev cur ++ x) :: l.
Proof.
  induction l as [|y l IH]; intros x cur H.
  - inversion H as [|? ? [_ Hx] _]; subst. cbn [join].
    rewrite <- (app_nil_r x) at 1. rewrite split_go_solid by assumption.
    cbn [split_go]. now rewrite rev_app_distr, rev_involutive.
  - inversion H as [|? ? [_ Hx] Hl]; subst.
    change (join comma_space (x :: y :: l)) with (x ++ comma_space ++ join comma_space (y :: l)).
    rewrite split_go_solid by assumption. rewrite split_go_sep.
    rewrite rev_app_distr, rev_involutive. f_equal. now apply IH.
Qed.

(** A text is split back into the pieces it was joined from. *)
Lemma split_join l :
  l <> [] -> Forall solid l -> split comma_space (join comma_space l) = l.
Proof.
  destruct l as [|x l]; [congruence|]. intros _ H.
  unfold split. now rewrite split_go_join.
Qed.

Lemma lines_from_break x y l room :
  room <= 1 -> lines_from room (x :: y :: l) = [x] :: lines_from 12 (y :: l).
Proof. destruct room as [|[|r]]; [reflexivity | reflexivity | lia]. Qed.

Lemma lines_from_same x y l r :
  lines_from (S (S r)) (x :: y :: l) =
  match lines_from (S r) (y :: l) with
  | line :: more => (x :: line) :: more
  | [] => [[x]]
  end.
Proof. reflexivity. Qed.

Lemma lines_from_cons : forall l room y,
  exists line more, lines_from room (y :: l) = (y :: line) :: more.
Proof.
  induction l as [|z l IH]; intros room y.
  - now exists [], [].
  - destruct room as [|[|r]].
    + rewrite lines_from_break by lia. now eexists _, _.
    + rewrite lines_from_break by lia. now eexists _, _.
    + destruct (IH (S r) z) as (line & more & E).
      rewrite lines_from_same, E. now eexists _, _.
Qed.

Lemma lines_from_concat : forall l room, concat (lines_from room l) = l.
Proof.
  induction l as [|x l IH]; intros room; [reflexivity|].
  destruct l as [|y l]; [reflexivity|].
  destruct room as [|[|r]].
  - rewrite lines_from_break by lia. cbn [concat app]. now rewrite IH.
  - rewrite lines_from_break by lia. cbn [concat app]. now rewrite IH.
  - pose proof (IH (S r)) as E. rewrite lines_from_same.
    destruct (lines_from (S r) (y :: l)) as [|line more].
    + discriminate E.
    + cbn [concat app] in *. now rewrite E.
Qed.

Lemma lines_from_ok : forall l room,
  1 <= room <= 12 -> lines_ok room (lines_from room l).
Proof.
  induction l as [|x l IH]; intros room Hr; [exact I|].
  destruct l as [|y l]; [simpl; lia|].
  destruct room as [|[|r]]; [lia| |].
  - destruct (lines_from_cons l 12 y) as (line & more & El).
    pose proof (IH 12 ltac:(lia)) as H.
    rewrite lines_from_break by lia.
    rewrite El in *. split; [reflexivity | exact H].
  - destruct (lines_from_cons l (S r) y) as (line & more & El).
    pose proof (IH (S r) ltac:(lia)) as H.
    rewrite lines_from_same. rewrite El in *.
    destruct more as [|m more].
    + cbn [lines_ok length] in *. lia.
    + destruct H as [H1 H2]. split; [cbn [length] in *; lia | exact H2].
Qed.

Lemma layout_same_line x y line more :
  layout ((x :: y :: line) :: more) = x ++ comma_space ++ layout ((y :: line) :: more).
Proof.
  unfold layout. cbn [map].
  change (join (txt ", ") (x :: y :: line))
    with (x ++ comma_space ++ join (txt ", ") (y :: line)).
  destruct more as [|m more]; [reflexivity|].
  cbn [map join]. now rewrite <- !app_assoc.
Qed.

Lemma layout_next_line x line more :
  layout ([x] :: line :: more) = x ++ (comma_space ++ [nl]) ++ layout (line :: more).
Proof. reflexivity. Qed.

Lemma solid_firm x : solid x -> firm x.
Proof.
  intros [Hne Hx]. split; [assumption|]. split.
  - exact (forallb_stops _ _ _ kept_not_stripped Hx).
  - exact (forallb_stops _ _ _ kept_not_stripped (forallb_rev _ _ Hx)).
Qed.

Lemma firm_app x m b : solid x -> firm b -> firm (x ++ m ++ b).
Proof.
  intros Hx (Hne & _ & Hb). destruct (solid_firm _ Hx) as (Hxne & Hx1 & _).
  split; [|split].
  - destruct x; [congruence | discriminate].
  - destruct x; [congruence | exact Hx1].
  - rewrite !rev_app_distr.
    destruct (rev b) as [|c t] eqn:E.
    + apply (f_equal (@rev _)) in E. rewrite rev_involutive in E. now subst.
    + exact Hb.
Qed.

Lemma strip_firm body tail :
  firm body -> forallb strip_set tail = true ->
  strip_chars (txt ", " ++ [nl]) (body ++ tail) = body.
Proof.
  intros (Hne & H1 & H2) Ht. unfold strip_chars. fold strip_set.
  rewrite lstrip_stops by (destruct body; [congruence | exact H1]).
  unfold rstrip. rewrite rev_app_distr, lstrip_app_all.
  - apply rev_involutive.
  - now apply forallb_rev.
  - exact H2.
Qed.

Lemma wrap_loop_step val vals acc cnt :
  wrap_loop (val :: vals) acc cnt =
  if (cnt + 1) mod 12 =? 0
  then wrap_loop vals ((acc ++ val ++ txt ", ") ++ [ascii_of_nat 10]) (cnt + 1)
  else wrap_loop vals (acc ++ val ++ txt ", ") (cnt + 1).
Proof. reflexivity. Qed.

Lemma wrap_loop_layout : forall l acc cnt room,
  l <> [] -> Forall solid l -> 1 <= room <= 12 -> (cnt + room) mod 12 = 0 ->
  exists tail,
    firm (layout (lines_from room l)) /\ forallb strip_set tail = true /\
    wrap_loop l acc cnt = acc ++ layout (lines_from room l) ++ tail.
Proof.
  induction l as [|x l IH]; intros acc cnt room Hne Hl Hr Hc; [congruence|].
  inversion Hl as [|? ? Hx Hl']; subst.
  destruct l as [|y l].
  - rewrite wrap_loop_step. cbn [wrap_loop lines_from]. change (layout [[x]]) with x.
    destruct ((cnt + 1) mod 12 =? 0).
    + exists (comma_space ++ [nl]). split; [now apply solid_firm|].
      split; [reflexivity|]. now rewrite <- ?app_assoc.
    + exists comma_space. split; [now apply solid_firm|].
      split; [reflexivity|]. now rewrite <- ?app_assoc.
  - destruct (lines_from_cons l 12 y) as (line12 & more12 & E12).
    rewrite wrap_loop_step.
    destruct room as [|[|r]]; [lia| |].
    + assert (((cnt + 1) mod 12 =? 0) = true) as -> by (apply Nat.eqb_eq; lia).
      destruct (IH ((acc ++ x ++ txt ", ") ++ [ascii_of_nat 10]) (cnt + 1) 12)
        as (tail & Hf & Ht & E); try assumption; try lia; [discriminate|].
      exists tail. rewrite lines_from_break by lia.
      rewrite E12 in *. rewrite layout_next_line.
      split; [now apply firm_app|]. split; [assumption|].
      rewrite E. unfold comma_space, nl. now rewrite <- ?app_assoc.
    + assert (((cnt + 1) mod 12 =? 0) = false) as -> by (apply Nat.eqb_neq; lia).
      destruct (IH (acc ++ x ++ txt ", ") (cnt + 1) (S r))
        as (tail & Hf & Ht & E); try assumption; try lia; [discriminate|].
      destruct (lines_from_cons l (S r) y) as (line & more & El).
      exists tail. rewrite lines_from_same.
      rewrite El in *. rewrite layout_same_line.
      split; [now apply firm_app|]. split; [assumption|].
      rewrite E. unfold comma_space. now rewrite <- ?app_assoc.
Qed.

Lemma format_x_lower n :
  format_x n <> [] /\ forallb is_lower_hex (format_x n) = true.
Proof.
  unfold format_x. generalize (N.to_hex_uint n) as d. intros d.
  assert (forall u,
    forallb is_lower_hex
      (list_ascii_of_string (HexadecimalString.NilEmpty.string_of_uint u)) = true)
    as Hu by (induction u; simpl; auto).
  split.
  - destruct d; discriminate.
  - destruct d; try apply Hu. reflexivity.
Qed.

Lemma format_02x_lower n :
  format_02x n <> [] /\ forallb is_lower_hex (format_02x n) = true.
Proof.
  destruct (format_x_lower n) as [Hne Hl]. unfold format_02x, zfill. split.
  - intros H. apply app_eq_nil in H as [_ H]. contradiction.
  - rewrite forallb_app, Hl, andb_true_r.
    apply forallb_forall. intros c Hc. apply repeat_spec in Hc. now subst.
Qed.

Lemma literal_solid v : solid (literal v).
Proof.
  destruct (format_02x_lower v) as [_ Hl]. split; [discriminate|].
  unfold literal. rewrite forallb_app. apply andb_true_intro. split.
  - reflexivity.
  - apply forallb_forall. intros c Hc. apply lower_hex_kept.
    rewrite forallb_forall in Hl. now apply Hl.
Qed.

(** The serialized values are their literals, twelve to a line. *)
Lemma wrap_layout new_values :
  wrap new_values = layout (lines_from 12 (map literal new_values)).
Proof.
  destruct new_values as [|v vs]; [reflexivity|].
  assert (Forall solid (map literal (v :: vs))) as Hs.
  { apply Forall_forall. intros l Hl. apply in_map_iff in Hl as (u & <- & _).
    apply literal_solid. }
  unfold wrap.
  change (map (fun v0 => txt "0x" ++ format_02x v0) (v :: vs))
    with (map literal (v :: vs)).
  fold comma_space. rewrite split_join by (assumption || discriminate).
  destruct (wrap_loop_layout (map literal (v :: vs)) [] 0 12)
    as (tail & Hf & Ht & E); try assumption; try discriminate; try lia.
  rewrite E. cbn [app]. now apply strip_firm.
Qed.

End Serializer.

(** * The literals of a serialized byte list *)

Lemma gap_same_line rest :
  contains (txt "0x") (comma_space ++ firstn 1 rest) = false.
Proof.
  destruct rest as [|c rest]; [reflexivity|].
  cbn. now rewrite !andb_false_r.
Qed.

Lemma gap_next_line rest :
  contains (txt "0x") ((comma_space ++ [nl]) ++ firstn 1 rest) = false.
Proof.
  destruct rest as [|c rest]; [reflexivity|].
  cbn. now rewrite !andb_false_r.
Qed.

Lemma findall_one_literal x rest :
  hex_literal x -> stops is_hex rest ->
  findall hex_pattern (x ++ rest) = x :: findall hex_pattern rest.
Proof.
  intros (ds & -> & Hds) Hrest. rewrite <- app_assoc.
  now apply findall_literal.
Qed.

(** The pattern finds in a serialized byte list the literals it was made
    of, and nothing else. *)
Lemma findall_layout : forall lines,
  Forall (fun line => line <> [] /\ Forall hex_literal line) lines ->
  findall hex_pattern (layout lines) = concat lines.
Proof.
  induction lines as [|line more IH]; [reflexivity|].
  intros H. inversion H as [|? ? [Hne Hline] Hmore]; subst.
  specialize (IH Hmore). clear H Hmore.
  induction line as [|x line IHl]; [congruence|]. clear Hne.
  inversion Hline as [|? ? Hx Hline']; subst.
  destruct line as [|y line].
  - destruct more as [|line2 more].
    + change (layout [[x]]) with x. rewrite <- (app_nil_r x) at 1.
      now rewrite findall_one_literal.
    + rewrite layout_next_line, findall_one_literal by (assumption || reflexivity).
      rewrite findall_other by apply gap_next_line.
      rewrite IH. reflexivity.
  - rewrite layout_same_line, findall_one_literal by (assumption || reflexivity).
    rewrite findall_other by apply gap_same_line.
    rewrite IHl by (assumption || discriminate). reflexivity.
Qed.

Lemma lines_from_lines (P : str -> Prop) : forall l room,
  Forall P l ->
  Forall (fun line => line <> [] /\ Forall P line) (lines_from room l).
Proof.
  induction l as [|x l IH]; intros room H; [constructor|].
  inversion H as [|? ? Hx Hl]; subst.
  destruct l as [|y l]; [repeat constructor; (discriminate || assumption)|].
  destruct room as [|[|r]].
  - rewrite lines_from_break by lia. constructor; [|now apply IH].
    split; [discriminate | now constructor].
  - rewrite lines_from_break by lia. constructor; [|now apply IH].
    split; [discriminate | now constructor].
  - rewrite lines_from_same. specialize (IH (S r) Hl).
    destruct (lines_from (S r) (y :: l)) as [|line more].
    + repeat constructor; (discriminate || assumption).
    + inversion IH as [|? ? [_ Hline] Hmore]; subst.
      constructor; [|assumption]. split; [discriminate | now constructor].
Qed.

Lemma lower_hex_is_hex_digit c : is_lower_hex c = true -> is_hex c = true.
Proof. each_char c. Qed.

Lemma literal_hex v : hex_literal (literal v).
Proof.
  destruct (format_02x_lower v) as [Hne Hl].
  exists (format_02x v). split; [reflexivity|]. split; [assumption|].
  apply forallb_forall. intros c Hc. apply lower_hex_is_hex_digit.
  rewrite forallb_forall in Hl. now apply Hl.
Qed.

Lemma findall_wrap new_values :
  findall hex_pattern (wrap new_values) = map literal new_values.
Proof.
  rewrite wrap_layout, findall_layout, lines_from_concat; [reflexivity|].
  apply lines_from_lines, Forall_forall.
  intros l Hl. apply in_map_iff in Hl as (v & <- & _). apply literal_hex.
Qed.

(** A byte is written with two lowercase digits, and read back as itself. *)
Lemma byte_literal v :
  (v <= 255)%N ->
  two_digit_literal (literal v) /\ int (strip (literal v)) 16 = Some v.
Proof.
  intros Hv. pose proof (for_all_bytes _ literal_ok_all v Hv) as H.
  unfold literal_ok in H. unfold literal, two_digit_literal.
  destruct (format_02x v) as [|d1 [|d2 [|d3 t]]]; try discriminate.
  apply andb_prop in H as [H H3]. apply andb_prop in H as [H1 H2].
  split; [now exists d1, d2|].
  destruct (int (strip (txt "0x" ++ [d1; d2])) 16) as [v'|] eqn:E;
    [|discriminate].
  apply N.eqb_eq in H3. now subst v'.
Qed.

Lemma parse_values_wrap new_values :
  Forall (fun v => (v <= 255)%N) new_values ->
  parse_values (wrap new_values) = Some new_values.
Proof.
  intros H. unfold parse_values. rewrite findall_wrap.
  induction H as [|v vs Hv _ IH]; [reflexivity|].
  cbn [map mapM]. rewrite (proj2 (byte_literal v Hv)), IH. reflexivity.
Qed.

Lemma reverse_all_bytes : forall values,
  Forall (fun v => (v <= 255)%N) values ->
  exists new_values,
    mapM reverse_bits values = Some new_values /\
    Forall (fun v => (v <= 255)%N) new_values /\
    mapM reverse_bits new_values = Some values.
Proof.
  induction 1 as [|v vs Hv _ (ws & E1 & Hw & E2)].
  - now exists [].
  - destruct (reverse_bits_byte v Hv) as (r & Er & Hr & Eb).
    exists (r :: ws). cbn [mapM]. rewrite Er, E1, Eb, E2.
    repeat split. now constructor.
Qed.

(** C3: for byte values in [0,255], the serialized body is made of exactly
    as many literals as there are values, each [0x] and two lowercase
    hexadecimal digits, separated by comma and space, twelve on every line
    but (possibly) the last, with a line feed after the comma and space that
    follow a twelfth literal, and nothing after the last literal. *)
Theorem wrap_twelve_per_line (values : list N)
  (Hbytes : Forall (fun v => (v <= 255)%N) values) :
  exists new_values lines,
    mapM reverse_bits values = Some new_values /\
    wrap new_values = layout lines /\
    lines_ok 12 lines /\
    concat lines = map literal new_values /\
    length (concat lines) = length values /\
    Forall two_digit_literal (concat lines) /\
    findall hex_pattern (wrap new_values) = concat lines.
Proof.
  destruct (reverse_all_bytes values Hbytes) as (new_values & E & Hnew & _).
  exists new_values, (lines_from 12 (map literal new_values)).
  rewrite lines_from_concat, length_map, (mapM_length _ _ _ E).
  repeat split.
  - exact E.
  - apply wrap_layout.
  - apply lines_from_ok. lia.
  - apply Forall_forall. intros l Hl. apply in_map_iff in Hl as (v & <- & Hv).
    rewrite Forall_forall in Hnew. now apply byte_literal, Hnew.
  - apply findall_wrap.
Qed.

Lemma wrap_twelve_per_line_witness :
  exists new_values lines,
    mapM reverse_bits [1; 2; 3; 4; 5; 6; 7; 8; 9; 10; 11; 12; 13; 255]%N =
      Some new_values /\
    wrap new_values = layout lines /\
    lines_ok 12 lines /\
    concat lines = map literal new_values /\
    length (concat lines) = 14 /\
    Forall two_digit_literal (concat lines) /\
    findall hex_pattern (wrap new_values) = concat lines.
Proof.
  apply (wrap_twelve_per_line [1; 2; 3; 4; 5; 6; 7; 8; 9; 10; 11; 12; 13; 255]%N).
  repeat constructor; vm_compute; discriminate.
Defined.

(** * The matcher on a declaration *)

Section ExecSteps.

Import Re.

Variable A : Type.
Variables (r : regex) (caps : list str) (k : cont A) (x : A).

Lemma exec_lit_cat l s : exec (Lit l ;; r) caps (l ++ s) k = exec r caps s k.
Proof. cbn [exec]. now rewrite strip_prefix_app. Qed.

Lemma exec_lit_end l s : exec (Lit l) caps (l ++ s) k = k caps s.
Proof. cbn [exec]. now rewrite strip_prefix_app. Qed.

Lemma exec_star_cat cls a s :
  forallb cls a = true -> stops cls s ->
  exec r caps s k = Some x -> exec (Star cls ;; r) caps (a ++ s) k = Some x.
Proof. intros Ha Hs H. cbn [exec]. now apply star_max. Qed.

Lemma exec_plus_cat cls a s :
  run cls a -> stops cls s ->
  exec r caps s k = Some x -> exec (Plus cls ;; r) caps (a ++ s) k = Some x.
Proof.
  intros [Hne Ha] Hs H. destruct a as [|c a]; [congruence|].
  simpl in Ha. apply andb_prop in Ha as [Hc Ha].
  cbn [exec app]. rewrite Hc. now apply star_max.
Qed.

Lemma exec_group_cat cls a s :
  run cls a -> stops cls s ->
  exec r (caps ++ [a]) s k = Some x ->
  exec (Group (Plus cls) ;; r) caps (a ++ s) k = Some x.
Proof.
  intros [Hne Ha] Hs H. destruct a as [|c a]; [congruence|].
  simpl in Ha. apply andb_prop in Ha as [Hc Ha].
  cbn [exec app]. rewrite Hc. apply star_max; try assumption.
  assert (length (c :: a ++ s) - length s = length (c :: a)) as ->
    by (cbn [length]; rewrite length_app; lia).
  change (c :: a ++ s) with ((c :: a) ++ s).
  rewrite firstn_app, firstn_all, Nat.sub_diag. cbn [firstn].
  now rewrite app_nil_r.
Qed.

End ExecSteps.

Lemma space_not_word c : isspace c = true -> is_word c = false.
Proof. each_char c. Qed.

Lemma stops_blank_then cls s next :
  (forall c, isspace c = true -> cls c = false) ->
  blank s -> stops cls next -> stops cls (s ++ next).
Proof.
  intros Hcls Hs Hn. destruct s as [|c s]; [exact Hn|].
  simpl in *. apply andb_prop in Hs as [Hc _]. now apply Hcls.
Qed.

(** The matcher finds every declaration at the start of a text, with its
    name and body as the two groups. *)
Lemma pattern_finds s1 s2 s3 name s4 s5 s6 s7 body rest :
  run isspace s1 -> run isspace s2 -> run isspace s3 -> run is_word name ->
  blank s4 -> blank s5 -> blank s6 -> blank s7 -> run (is_not "}") body ->
  match_at pattern (decl_text s1 s2 s3 name s4 s5 s6 s7 body ++ rest) =
  Some ([name; body], rest).
Proof.
  intros H1 H2 H3 Hn H4 H5 H6 H7 Hb.
  unfold match_at, pattern, decl_text. rewrite <- !app_assoc.
  rewrite exec_lit_cat. apply exec_plus_cat; [assumption | reflexivity |].
  rewrite exec_lit_cat. apply exec_plus_cat; [assumption | reflexivity |].
  rewrite exec_lit_cat. apply exec_plus_cat; [assumption | |].
  { destruct Hn as [Hne Hw]. destruct name as [|c name]; [congruence|].
    simpl in *. apply andb_prop in Hw as [Hc _]. now apply word_not_space. }
  apply exec_group_cat; [assumption | |].
  { apply stops_blank_then; [apply space_not_word | assumption | reflexivity]. }
  apply exec_star_cat; [assumption | reflexivity |].
  rewrite exec_lit_cat. apply exec_star_cat; [assumption | reflexivity |].
  rewrite exec_lit_cat. apply exec_star_cat; [assumption | reflexivity |].
  rewrite exec_lit_cat. apply exec_star_cat; [assumption | reflexivity |].
  rewrite exec_lit_cat. apply exec_group_cat; [assumption | reflexivity |].
  now rewrite exec_lit_end.
Qed.

(** * The array pass, twice *)

Lemma forallb_join (P : ascii -> bool) sep0 : forall l,
  forallb P sep0 = true -> Forall (fun x => forallb P x = true) l ->
  forallb P (join sep0 l) = true.
Proof.
  intros l Hs H. induction H as [|x l Hx Hl IH]; [reflexivity|].
  destruct l as [|y l]; [exact Hx|].
  change (join sep0 (x :: y :: l)) with (x ++ sep0 ++ join sep0 (y :: l)).
  now rewrite !forallb_app, Hx, Hs, IH.
Qed.

Lemma lower_hex_wrap_char c : is_lower_hex c = true -> is_wrap_char c = true.
Proof. each_char c. Qed.

Lemma wrap_char_not_close c : is_wrap_char c = true -> is_not "}" c = true.
Proof. each_char c. Qed.

Lemma wrap_char_not_upper c : is_wrap_char c = true -> is_upper c = false.
Proof. each_char c. Qed.

Lemma literal_chars v : forallb is_wrap_char (literal v) = true.
Proof.
  destruct (format_02x_lower v) as [_ Hl]. unfold literal.
  rewrite forallb_app. apply andb_true_intro. split; [reflexivity|].
  apply forallb_forall. intros c Hc. apply lower_hex_wrap_char.
  rewrite forallb_forall in Hl. now apply Hl.
Qed.

(** Every character of a serialized byte list is a lowercase hexadecimal
    digit, [x], a comma, a space or a line feed. *)
Lemma wrap_chars new_values : forallb is_wrap_char (wrap new_values) = true.
Proof.
  rewrite wrap_layout. unfold layout.
  apply forallb_join; [reflexivity|].
  apply Forall_forall. intros t Ht. apply in_map_iff in Ht as (line & <- & Hline).
  apply forallb_join; [reflexivity|].
  assert (Forall (fun l => forallb is_wrap_char l = true)
            (map literal new_values)) as Hl.
  { apply Forall_forall. intros l Hl. apply in_map_iff in Hl as (v & <- & _).
    apply literal_chars. }
  pose proof (lines_from_lines _ _ 12 Hl) as H.
  rewrite Forall_forall in H. now apply H.
Qed.

Lemma wrap_body new_values :
  new_values <> [] -> run (is_not "}") (wrap new_values).
Proof.
  intros Hne. split.
  - intros E. pose proof (findall_wrap new_values) as H. rewrite E in H.
    destruct new_values; [congruence | discriminate H].
  - pose proof (wrap_chars new_values) as H. rewrite forallb_forall in *.
    intros c Hc. now apply wrap_char_not_close, H.
Qed.

Lemma open_brace_found : forall u c v,
  is_not "}" c = true -> open_brace (u ++ "{"%char :: c :: v) = true.
Proof.
  induction u as [|a u IH]; intros c v Hc.
  - cbn [app open_brace]. now rewrite Hc.
  - change ((a :: u) ++ "{"%char :: c :: v) with (a :: u ++ "{"%char :: c :: v).
    cbn [open_brace]. rewrite IH by assumption. apply orb_true_r.
Qed.

Lemma open_brace_skip : forall x y,
  forallb (is_not "{") x = true -> open_brace (x ++ y) = open_brace y.
Proof.
  induction x as [|a x IH]; intros y H; [reflexivity|].
  simpl in H. apply andb_prop in H as [Ha Hx].
  change ((a :: x) ++ y) with (a :: x ++ y). cbn [open_brace].
  unfold is_not in Ha. apply negb_true_iff in Ha. rewrite Ha.
  now rewrite IH.
Qed.

Lemma word_not_brace c : is_word c = true -> is_not "{" c = true.
Proof. each_char c. Qed.

(** A declaration with nothing between its braces is not matched, and holds
    no match. *)
Lemma empty_declaration_no_match name :
  forallb is_word name = true -> ~ contains_match pattern (declaration name []).
Proof.
  intros Hw (pre & m & post & g & E & M).
  apply pattern_inv in M
    as (s1 & s2 & s3 & n & s4 & s5 & s6 & s7 & body & -> & _ & M).
  destruct M as (_ & _ & _ & _ & _ & _ & _ & _ & Hne & Hb).
  destruct body as [|c body]; [congruence|].
  simpl in Hb. apply andb_prop in Hb as [Hc _].
  assert (open_brace (declaration name []) = true) as Ht.
  { rewrite E. unfold decl_text.
    replace (pre ++ (txt "const" ++ s1 ++ txt "unsigned" ++ s2 ++ txt "char" ++
               s3 ++ n ++ s4 ++ txt "[]" ++ s5 ++ txt "PROGMEM" ++ s6 ++
               txt "=" ++ s7 ++ txt "{" ++ (c :: body) ++ txt "};") ++ post)
      with ((pre ++ txt "const" ++ s1 ++ txt "unsigned" ++ s2 ++ txt "char" ++
               s3 ++ n ++ s4 ++ txt "[]" ++ s5 ++ txt "PROGMEM" ++ s6 ++
               txt "=" ++ s7) ++ "{"%char :: c :: (body ++ txt "};" ++ post))
      by (rewrite <- !app_assoc; reflexivity).
    now apply open_brace_found. }
  assert (open_brace (declaration name []) = false) as Hf.
  { unfold declaration. rewrite app_assoc, open_brace_skip; [reflexivity|].
    rewrite forallb_app. apply andb_true_intro. split; [reflexivity|].
    apply forallb_forall. intros a Ha. apply word_not_brace.
    rewrite forallb_forall in Hw. now apply Hw. }
  congruence.
Qed.

(** The array pass on a text that is one match. *)
Lemma array_pass_whole m name body :
  m <> [] -> match_at pattern m = Some ([name; body], []) ->
  array_pass m = replacement m [name; body].
Proof.
  intros Hne H. unfold array_pass, sub.
  pose proof (scan_hit pattern m [] [name; body] Hne) as S.
  rewrite !app_nil_r in S. rewrite (S H).
  cbn [scan render].
  destruct (replacement m [name; body]) as [out|]; [|reflexivity].
  simpl. now rewrite app_nil_r.
Qed.

Lemma declaration_match name body :
  run is_word name -> run (is_not "}") body ->
  match_at pattern (declaration name body) = Some ([name; body], []).
Proof.
  intros Hn Hb.
  pose proof (pattern_finds sp sp sp name [] sp sp sp body []) as H.
  rewrite app_nil_r in H. apply H; try assumption; try reflexivity;
    split; (discriminate || reflexivity).
Qed.

(** C8: a matched declaration whose byte literals denote values in [0,255]
    comes out of two array passes as the declaration of the same name whose
    bytes are the original values. *)
Theorem array_pass_twice (m name body : str) (values : list N)
  (Hmatch : match_at pattern m = Some ([name; body], []))
  (Hvalues : parse_values body = Some values)
  (Hbytes : Forall (fun v => (v <= 255)%N) values) :
  exists once,
    array_pass m = Some once /\
    array_pass once = Some (declaration name (wrap values)) /\
    parse_values (wrap values) = Some values.
Proof.
  destruct (match_at_sound _ _ _ _ Hmatch) as (a & Ea & M).
  rewrite app_nil_r in Ea. subst a.
  apply pattern_inv in M
    as (s1 & s2 & s3 & n & s4 & s5 & s6 & s7 & b & Em & [= <- <-] & M).
  destruct M as (_ & _ & _ & Hname & _).
  assert (m <> []) as Hne by (subst m; discriminate).
  destruct (reverse_all_bytes values Hbytes) as (new_values & E1 & Hnew & E2).
  exists (declaration name (wrap new_values)).
  split; [|split].
  - rewrite (array_pass_whole m name body Hne Hmatch).
    unfold replacement. cbn [nth]. rewrite Hvalues. simpl. now rewrite E1.
  - destruct values as [|v values].
    + injection E1 as <-. change (wrap []) with (@nil ascii).
      apply sub_no_match, empty_declaration_no_match, Hname.
    + assert (new_values <> []) as Hnn.
      { intros ->. apply mapM_length in E1. discriminate E1. }
      rewrite (array_pass_whole _ name (wrap new_values)).
      * unfold replacement. cbn [nth].
        rewrite (parse_values_wrap _ Hnew). simpl. now rewrite E2.
      * discriminate.
      * apply declaration_match; [assumption | now apply wrap_body].
  - now apply parse_values_wrap.
Qed.

Lemma array_pass_twice_witness :
  exists once,
    array_pass (txt "const unsigned char icon[] PROGMEM = {0x01, 0x80};") =
      Some once /\
    array_pass once =
      Some (declaration (txt "icon") (wrap [1; 128]%N)) /\
    parse_values (wrap [1; 128]%N) = Some [1; 128]%N.
Proof.
  apply (array_pass_twice
           (txt "const unsigned char icon[] PROGMEM = {0x01, 0x80};")
           (txt "icon") (txt "0x01, 0x80") [1; 128]%N).
  - vm_compute. reflexivity.
  - vm_compute. reflexivity.
  - repeat constructor; vm_compute; discriminate.
Defined.

(** * Letter case *)

(** C10: a body with the digits [A]..[F] gives the same values as the body
    with [a]..[f] in their place, and no character of a serialized byte list
    is an uppercase letter; so a declaration written with [0xAB] comes out
    of the array pass like the one written with [0xab], in lowercase. *)
Theorem hex_case_normalised :
  (forall body, parse_values (map lower_hex body) = parse_values body) /\
  (forall new_values,
     forallb (fun c => negb (is_upper c)) (wrap new_values) = true) /\
  array_pass (txt "const unsigned char icon[] PROGMEM = {0xAB, 0x0F};") =
    Some (txt "const unsigned char icon[] PROGMEM = {0xd5, 0xf0};") /\
  array_pass (txt "const unsigned char icon[] PROGMEM = {0xab, 0x0f};") =
    Some (txt "const unsigned char icon[] PROGMEM = {0xd5, 0xf0};").
Proof.
  split; [exact parse_values_lower|]. split; [|split; vm_compute; reflexivity].
  intros new_values. pose proof (wrap_chars new_values) as H.
  rewrite forallb_forall in *. intros c Hc.
  now rewrite (wrap_char_not_upper c (H c Hc)).
Qed.

(** * What counts as a byte *)

(** C4 fails as stated: the token [0x100] has three digits and gives the
    value 256, and the identifier [a0x1f] gives 31; the decimal [10] gives
    nothing. *)
Lemma long_token_consumed :
  let tokens := [txt "0x100"; txt "a0x1f"; txt "10"] in
  parse_values (join (txt ", ") tokens) = Some [256; 31]%N /\
  claimed_values tokens = [] /\
  parse_values (join (txt ", ") tokens) <> Some (claimed_values tokens).
Proof. vm_compute. repeat split; discriminate. Qed.

Lemma contains_snoc : forall s c,
  contains (txt "0x") s = false -> Ascii.eqb "x" c = false ->
  contains (txt "0x") (s ++ [c]) = false.
Proof.
  induction s as [|a s IH]; intros c H Hc.
  - cbn. now rewrite !andb_false_r.
  - cbn [contains] in H. apply orb_false_elim in H as [H1 H2].
    change ((a :: s) ++ [c]) with (a :: s ++ [c]). cbn [contains].
    rewrite (IH c H2 Hc), orb_false_r.
    cbn [txt list_ascii_of_string starts_with] in *.
    destruct (Ascii.eqb "0" a); [|reflexivity]. simpl in *.
    destruct s as [|y s]; simpl in *; [now rewrite Hc | exact H1].
Qed.

Lemma findall_other_then_comma s rest :
  contains (txt "0x") s = false ->
  findall hex_pattern (s ++ comma_space ++ rest) =
  findall hex_pattern (comma_space ++ rest).
Proof.
  intros H. apply findall_other. now apply contains_snoc.
Qed.

Lemma findall_tokens : forall toks,
  Forall token_ok toks ->
  findall hex_pattern (join comma_space (map token_text toks)) =
  flat_map token_literals toks.
Proof.
  induction toks as [|t toks IH]; intros H; [reflexivity|].
  inversion H as [|? ? Ht Htoks]; subst. specialize (IH Htoks).
  destruct toks as [|t2 toks].
  - cbn [map join flat_map]. rewrite app_nil_r.
    destruct t as [ds|s]; cbn [token_text token_literals].
    + rewrite <- (app_nil_r (txt "0x" ++ ds)) at 1.
      rewrite findall_one_literal; [reflexivity | now exists ds | exact I].
    + rewrite <- (app_nil_r s) at 1. apply findall_other.
      cbn [firstn]. now rewrite app_nil_r.
  - change (join comma_space (map token_text (t :: t2 :: toks)))
      with (token_text t ++ comma_space ++
            join comma_space (map token_text (t2 :: toks))).
    change (flat_map token_literals (t :: t2 :: toks))
      with (token_literals t ++ flat_map token_literals (t2 :: toks)).
    rewrite <- IH.
    destruct t as [ds|s]; cbn [token_text token_literals app].
    + rewrite findall_one_literal; [|now exists ds | reflexivity].
      now rewrite findall_other by apply gap_same_line.
    + rewrite findall_other_then_comma by exact Ht.
      now rewrite findall_other by apply gap_same_line.
Qed.

Lemma mapM_app {X Y} (f : X -> option Y) l1 l2 ys1 ys2 :
  mapM f l1 = Some ys1 -> mapM f l2 = Some ys2 ->
  mapM f (l1 ++ l2) = Some (ys1 ++ ys2).
Proof.
  revert ys1. induction l1 as [|a l1 IH]; simpl; intros ys1 H1 H2.
  - now injection H1 as <-.
  - destruct (f a) as [b|]; [|discriminate]. simpl in *.
    destruct (mapM f l1) as [bs|]; [|discriminate]. simpl in *.
    injection H1 as <-. now rewrite (IH bs eq_refl H2).
Qed.

(** Whatever the body, reading its bytes succeeds, and the values read are
    those of the pieces [0x] with one or more digits that the pattern
    finds. *)
Lemma parse_values_literals body :
  exists runs,
    Forall (run is_hex) runs /\
    findall hex_pattern body = map (app (txt "0x")) runs /\
    parse_values body = Some (map hex_val runs).
Proof.
  unfold parse_values.
  induction (findall_hex body) as [|w ws (ds & -> & Hds) _ (runs & Hr & E1 & E2)].
  - now exists [].
  - exists (ds :: runs). split; [now constructor|]. split.
    + cbn [map]. now rewrite E1.
    + destruct Hds as [Hne Hds]. cbn [map mapM].
      now rewrite int_hex_literal, E2.
Qed.

(** C4, as the code has it: reading the bytes of a body never fails, and
    every value read is that of a piece [0x] followed by one or more
    hexadecimal digits; in a comma-separated body every item [0x] with its
    digits gives the value of the digits, in order, and every item that
    holds no [0x] gives nothing. *)
Theorem parse_values_tokens (toks : list token)
  (Hok : Forall token_ok toks) :
  (forall body, exists runs,
     Forall (run is_hex) runs /\
     findall hex_pattern body = map (app (txt "0x")) runs /\
     parse_values body = Some (map hex_val runs)) /\
  parse_values (join (txt ", ") (map token_text toks)) =
    Some (flat_map token_values toks).
Proof.
  split; [exact parse_values_literals|].
  unfold parse_values. fold comma_space. rewrite (findall_tokens toks Hok).
  induction Hok as [|t toks Ht _ IH]; [reflexivity|].
  cbn [flat_map]. apply mapM_app; [|exact IH].
  destruct t as [ds|s]; [|reflexivity].
  destruct Ht as [Hne Hds]. cbn [token_literals token_values mapM].
  now rewrite int_hex_literal.
Qed.

Lemma parse_values_tokens_witness :
  (forall body, exists runs,
     Forall (run is_hex) runs /\
     findall hex_pattern body = map (app (txt "0x")) runs /\
     parse_values body = Some (map hex_val runs)) /\
  parse_values
    (join (txt ", ")
       (map token_text
          [HexTok (txt "01"); Other (txt "10"); Other (txt "icon");
           HexTok (txt "100"); HexTok (txt "aB"); Other (txt "0X1F")])) =
    Some [1; 256; 171]%N.
Proof.
  apply (parse_values_tokens
           [HexTok (txt "01"); Other (txt "10"); Other (txt "icon");
            HexTok (txt "100"); HexTok (txt "aB"); Other (txt "0X1F")]).
  repeat constructor; discriminate.
Defined.

(** * Further properties of the script *)

(** ** Declarations, however they are spaced *)

(** The scan of a text that begins with a declaration. *)
Lemma scan_declaration s1 s2 s3 name s4 s5 s6 s7 body post :
  run isspace s1 -> run isspace s2 -> run isspace s3 -> run is_word name ->
  blank s4 -> blank s5 -> blank s6 -> blank s7 -> run (is_not "}") body ->
  scan pattern 0 (decl_text s1 s2 s3 name s4 s5 s6 s7 body ++ post) =
  Hit (decl_text s1 s2 s3 name s4 s5 s6 s7 body) [name; body]
  :: scan pattern 0 post.
Proof.
  intros. apply scan_hit; [discriminate | now apply pattern_finds].
Qed.

(** X4: a declaration at the start of a text, with any white space between
    its words, is matched whole: it is replaced by the declaration of the
    same name with the reversed values of its body, and the pass goes on
    with the text behind it. *)
Theorem array_pass_declaration
  (s1 s2 s3 name s4 s5 s6 s7 body post : str)
  (H1 : run isspace s1) (H2 : run isspace s2) (H3 : run isspace s3)
  (Hname : run is_word name)
  (H4 : blank s4) (H5 : blank s5) (H6 : blank s6) (H7 : blank s7)
  (Hbody : run (is_not "}") body) :
  exists values new_values rest,
    parse_values body = Some values /\
    mapM reverse_bits values = Some new_values /\
    array_pass post = Some rest /\
    array_pass (decl_text s1 s2 s3 name s4 s5 s6 s7 body ++ post) =
      Some (declaration name (wrap new_values) ++ rest).
Proof.
  destruct (parse_values_total body) as [values Hv].
  destruct (reverse_all_total values) as [new_values Hn].
  destruct (array_pass_total post) as [rest Hp].
  exists values, new_values, rest. repeat (split; [assumption|]).
  unfold array_pass, sub in *.
  rewrite scan_declaration by assumption.
  cbn [render]. unfold replacement at 1. cbn [nth].
  rewrite Hv. simpl. rewrite Hn. simpl. now rewrite Hp.
Qed.

Lemma array_pass_declaration_witness :
  exists values new_values rest,
    parse_values (txt " 0x01,0x0F ") = Some values /\
    mapM reverse_bits values = Some new_values /\
    array_pass (txt " int x;") = Some rest /\
    array_pass
      (decl_text [nl] (txt "  ") sp (txt "icon_1") sp [] [nl] []
         (txt " 0x01,0x0F ") ++ txt " int x;") =
      Some (declaration (txt "icon_1") (wrap new_values) ++ rest).
Proof.
  apply (array_pass_declaration [nl] (txt "  ") sp (txt "icon_1") sp [] [nl] []
           (txt " 0x01,0x0F ") (txt " int x;"));
    try reflexivity; split; (discriminate || reflexivity).
Defined.

Lemma contains_eq p s :
  contains p s =
  starts_with p s || match s with [] => false | _ :: s' => contains p s' end.
Proof. now destruct s. Qed.

Lemma starts_with_app p r : starts_with p (p ++ r) = true.
Proof.
  induction p as [|a p IH]; [reflexivity|]. simpl.
  now rewrite Ascii.eqb_refl, IH.
Qed.

Lemma contains_mid p : forall a b, contains p (a ++ p ++ b) = true.
Proof.
  induction a as [|c a IH]; intros b.
  - rewrite contains_eq. simpl app. now rewrite starts_with_app.
  - change ((c :: a) ++ p ++ b) with (c :: a ++ p ++ b).
    rewrite contains_eq, IH. apply orb_true_r.
Qed.

Lemma contains_inside p pre u v post :
  contains p (pre ++ (u ++ p ++ v) ++ post) = true.
Proof.
  replace (pre ++ (u ++ p ++ v) ++ post) with ((pre ++ u) ++ p ++ (v ++ post))
    by (now rewrite <- !app_assoc).
  apply contains_mid.
Qed.

Lemma space_not_brace c : isspace c = true -> is_not "{" c = true.
Proof. each_char c. Qed.

Lemma forallb_impl (p q : ascii -> bool) s :
  (forall c, p c = true -> q c = true) ->
  forallb p s = true -> forallb q s = true.
Proof.
  intros Hpq. rewrite !forallb_forall. intros H c Hc. now apply Hpq, H.
Qed.

(** X5: when the body of a declaration holds no [0x] (a table of decimal
    numbers, or literals written [0X..]), no value is read from it, and the
    declaration comes out with nothing between its braces. *)
Theorem array_pass_drops_body
  (s1 s2 s3 name s4 s5 s6 s7 body : str)
  (H1 : run isspace s1) (H2 : run isspace s2) (H3 : run isspace s3)
  (Hname : run is_word name)
  (H4 : blank s4) (H5 : blank s5) (H6 : blank s6) (H7 : blank s7)
  (Hbody : run (is_not "}") body)
  (Hno : contains (txt "0x") body = false) :
  parse_values body = Some [] /\
  array_pass (decl_text s1 s2 s3 name s4 s5 s6 s7 body) =
    Some (declaration name []).
Proof.
  assert (parse_values body = Some []) as Hv.
  { unfold parse_values. rewrite <- (app_nil_r body).
    rewrite findall_other; [reflexivity|]. cbn [firstn]. now rewrite app_nil_r. }
  split; [exact Hv|].
  pose proof (pattern_finds s1 s2 s3 name s4 s5 s6 s7 body []
                H1 H2 H3 Hname H4 H5 H6 H7 Hbody) as Hm.
  rewrite app_nil_r in Hm.
  rewrite (array_pass_whole _ name body); [|discriminate | exact Hm].
  unfold replacement. cbn [nth]. rewrite Hv. reflexivity.
Qed.

Lemma array_pass_drops_body_witness :
  parse_values (txt "1, 0X80, 255") = Some [] /\
  array_pass (txt "const unsigned char icon[] PROGMEM = {1, 0X80, 255};") =
    Some (txt "const unsigned char icon[] PROGMEM = {};").
Proof.
  apply (array_pass_drops_body sp sp sp (txt "icon") [] sp sp sp
           (txt "1, 0X80, 255"));
    try reflexivity; split; (discriminate || reflexivity).
Defined.

(** X6: a declaration with nothing between its braces, however it is
    spaced, is not matched: the array pass returns it as it is. *)
Theorem array_pass_empty_braces
  (s1 s2 s3 name s4 s5 s6 s7 : str)
  (H1 : blank s1) (H2 : blank s2) (H3 : blank s3)
  (Hname : forallb is_word name = true)
  (H4 : blank s4) (H5 : blank s5) (H6 : blank s6) (H7 : blank s7) :
  array_pass (decl_text s1 s2 s3 name s4 s5 s6 s7 []) =
    Some (decl_text s1 s2 s3 name s4 s5 s6 s7 []).
Proof.
  apply sub_no_match. intros (pre & m & post & g & E & M).
  apply pattern_inv in M
    as (t1 & t2 & t3 & n & t4 & t5 & t6 & t7 & body & -> & _ & M).
  destruct M as (_ & _ & _ & _ & _ & _ & _ & _ & Hne & Hb).
  destruct body as [|c body]; [congruence|].
  simpl in Hb. apply andb_prop in Hb as [Hc _].
  assert (open_brace (decl_text s1 s2 s3 name s4 s5 s6 s7 []) = true) as Ht.
  { rewrite E. unfold decl_text.
    replace (pre ++ (txt "const" ++ t1 ++ txt "unsigned" ++ t2 ++ txt "char" ++
               t3 ++ n ++ t4 ++ txt "[]" ++ t5 ++ txt "PROGMEM" ++ t6 ++
               txt "=" ++ t7 ++ txt "{" ++ (c :: body) ++ txt "};") ++ post)
      with ((pre ++ txt "const" ++ t1 ++ txt "unsigned" ++ t2 ++ txt "char" ++
               t3 ++ n ++ t4 ++ txt "[]" ++ t5 ++ txt "PROGMEM" ++ t6 ++
               txt "=" ++ t7) ++ "{"%char :: c :: (body ++ txt "};" ++ post))
      by (rewrite <- !app_assoc; reflexivity).
    now apply open_brace_found. }
  assert (open_brace (decl_text s1 s2 s3 name s4 s5 s6 s7 []) = false) as Hf.
  { unfold decl_text.
    replace (txt "const" ++ s1 ++ txt "unsigned" ++ s2 ++ txt "char" ++ s3 ++
             name ++ s4 ++ txt "[]" ++ s5 ++ txt "PROGMEM" ++ s6 ++ txt "=" ++
             s7 ++ txt "{" ++ [] ++ txt "};")
      with ((txt "const" ++ s1 ++ txt "unsigned" ++ s2 ++ txt "char" ++ s3 ++
             name ++ s4 ++ txt "[]" ++ s5 ++ txt "PROGMEM" ++ s6 ++ txt "=" ++
             s7) ++ txt "{};")
      by (rewrite <- !app_assoc; reflexivity).
    rewrite open_brace_skip; [reflexivity|].
    pose proof (fun s => forallb_impl _ _ s space_not_brace) as Hs.
    pose proof (forallb_impl _ _ name word_not_brace Hname) as Hn.
    unfold blank in *.
    rewrite !forallb_app, (Hs s1 H1), (Hs s2 H2), (Hs s3 H3), Hn,
      (Hs s4 H4), (Hs s5 H5), (Hs s6 H6), (Hs s7 H7).
    reflexivity. }
  congruence.
Qed.

Lemma array_pass_empty_braces_witness :
  array_pass (txt "const  unsigned char icon []PROGMEM={};") =
    Some (txt "const  unsigned char icon []PROGMEM={};").
Proof.
  apply (array_pass_empty_braces (txt "  ") sp sp (txt "icon") sp [] [] []);
    reflexivity.
Defined.

(** ** Text that the passes leave alone *)



Lemma starts_with_split : forall p s,
  starts_with p s = true -> exists v, s = p ++ v.
Proof.
  induction p as [|a p IH]; intros s H; [now exists s|].
  destruct s as [|c s]; [discriminate|]. simpl in H.
  apply andb_prop in H as [Hc Hs]. apply Ascii.eqb_eq in Hc. subst c.
  destruct (IH s Hs) as [v ->]. now exists v.
Qed.

Lemma contains_context p pre post : forall m,
  contains p m = true -> contains p (pre ++ m ++ post) = true.
Proof.
  intros m H.
  assert (exists u v, m = u ++ p ++ v) as (u & v & ->).
  { induction m as [|c m IH]; rewrite contains_eq in H.
    - rewrite orb_false_r in H. apply starts_with_split in H as [v ->].
      now exists [], v.
    - apply orb_prop in H as [H|H].
      + apply starts_with_split in H as [v ->]. now exists [], v.
      + destruct (IH H) as (u & v & ->). now exists (c :: u), v. }
  apply contains_inside.
Qed.

Lemma call_has_comment_sign m g :
  Matches draw_pattern m g -> contains (txt "//") m = true.
Proof.
  intros M. apply draw_pattern_inv in M
    as (s1 & s2 & s3 & x & s4 & y & s5 & b & s6 & w & s7 & h & s8 & t & -> & _).
  unfold call_text. apply (contains_mid (txt "//") []).
Qed.



(** ** The bit-order transform on any number *)

Lemma int_bin_digits s :
  s <> [] -> forallb is_bin s = true -> int s 2 = int_digits 2 0 s.
Proof.
  intros Hne Hs. unfold int.
  rewrite (proj2 (strip_stops s
    (forallb_stops _ _ _ bin_not_space Hs)
    (forallb_stops _ _ _ bin_not_space (forallb_rev _ _ Hs)))).
  assert (drop_base_prefix 2 s = s) as ->.
  { destruct s as [|z [|p s']]; try reflexivity. simpl in Hs.
    apply andb_prop in Hs as [_ Hs]. apply andb_prop in Hs as [Hp _].
    unfold drop_base_prefix. rewrite (bin_not_b _ Hp).
    cbn. now rewrite andb_false_r. }
  destruct s as [|c s]; [congruence | reflexivity].
Qed.

Lemma int_digits_bits : forall p acc z,
  int_digits 2 acc (bits_lsb p ++ z) = int_digits 2 (rev_pos p acc) z.
Proof.
  induction p as [p IH|p IH|]; intros acc z; cbn [bits_lsb app int_digits rev_pos].
  - change (digit_val "1") with (Some 1%N). cbv iota.
    change (1 <? 2)%N with true. cbv iota.
    replace (acc * 2 + 1)%N with (2 * acc + 1)%N by lia. apply IH.
  - change (digit_val "0") with (Some 0%N). cbv iota.
    change (0 <? 2)%N with true. cbv iota.
    replace (acc * 2 + 0)%N with (2 * acc)%N by lia. apply IH.
  - change (digit_val "1") with (Some 1%N). cbv iota.
    change (1 <? 2)%N with true. cbv iota.
    now replace (acc * 2 + 1)%N with (2 * acc + 1)%N by lia.
Qed.

Lemma int_digits_zeros : forall k acc,
  int_digits 2 acc (repeat "0"%char k) = Some (acc * 2 ^ N.of_nat k)%N.
Proof.
  induction k as [|k IH]; intros acc.
  - simpl. f_equal. lia.
  - cbn [repeat int_digits].
    change (digit_val "0") with (Some 0%N). cbv iota.
    change (0 <? 2)%N with true. cbv iota.
    rewrite IH. f_equal. rewrite Nat2N.inj_succ, N.pow_succ_r'. lia.
Qed.

Lemma length_bits_lsb p : N.of_nat (length (bits_lsb p)) = N.size (Npos p).
Proof.
  induction p as [p IH|p IH|]; cbn [bits_lsb length N.size Pos.size] in *;
    try reflexivity; rewrite Nat2N.inj_succ, IH; lia.
Qed.

Lemma bits_above_size p j :
  (N.size (Npos p) <= j)%N -> N.testbit (Npos p) j = false.
Proof.
  intros H. apply N.bits_above_log2.
  rewrite N.size_log2 in H by discriminate. lia.
Qed.

Lemma rev_pos_bits : forall p acc i,
  N.testbit (rev_pos p acc) i =
  if (i <? N.size (Npos p))%N
  then N.testbit (Npos p) (N.size (Npos p) - 1 - i)
  else N.testbit acc (i - N.size (Npos p)).
Proof.
  induction p as [p IH|p IH|]; intros acc i; cbn [rev_pos].
  - rewrite IH.
    assert (N.size (Npos p~1) = N.succ (N.size (Npos p))) as -> by reflexivity.
    destruct (N.ltb_spec i (N.size (Npos p))); destruct (N.ltb_spec i (N.succ (N.size (Npos p)))); try lia.
    + replace (N.succ (N.size (N.pos p)) - 1 - i)%N with (N.succ (N.size (N.pos p) - 1 - i)) by lia.
      change (N.pos p~1) with (2 * N.pos p + 1)%N.
      now rewrite N.testbit_odd_succ by lia.
    + replace (i - N.size (N.pos p))%N with 0%N by lia.
      replace (N.succ (N.size (N.pos p)) - 1 - i)%N with 0%N by lia.
      now rewrite N.testbit_odd_0.
    + replace (i - N.size (N.pos p))%N with (N.succ (i - N.succ (N.size (N.pos p)))) by lia.
      now rewrite N.testbit_odd_succ by lia.
  - rewrite IH.
    assert (N.size (Npos p~0) = N.succ (N.size (Npos p))) as -> by reflexivity.
    destruct (N.ltb_spec i (N.size (Npos p))); destruct (N.ltb_spec i (N.succ (N.size (Npos p)))); try lia.
    + replace (N.succ (N.size (N.pos p)) - 1 - i)%N with (N.succ (N.size (N.pos p) - 1 - i)) by lia.
      change (N.pos p~0) with (2 * N.pos p)%N.
      now rewrite N.testbit_even_succ by lia.
    + replace (i - N.size (N.pos p))%N with 0%N by lia.
      replace (N.succ (N.size (N.pos p)) - 1 - i)%N with 0%N by lia.
      now rewrite N.testbit_even_0.
    + replace (i - N.size (N.pos p))%N with (N.succ (i - N.succ (N.size (N.pos p)))) by lia.
      now rewrite N.testbit_even_succ by lia.
  - change (N.size 1) with 1%N.
    destruct (N.ltb_spec i 1).
    + replace i with 0%N by lia. now rewrite N.testbit_odd_0.
    + replace i with (N.succ (i - 1)) at 1 by lia.
      now rewrite N.testbit_odd_succ by lia.
Qed.

(** X1: for every number, also above 255, [reverse_bits] writes the number
    in binary with at least eight digits and reads the digits backwards:
    with [w] digits written, bit [i] of the result is bit [w - 1 - i] of
    the number, and the result has no bit from [w] on. *)
Theorem reverse_bits_all_bits (n : N) :
  exists r, reverse_bits n = Some r /\
    forall i, N.testbit r i =
      if (i <? width n)%N then N.testbit n (width n - 1 - i) else false.
Proof.
  destruct n as [|p].
  - exists 0%N. split; [reflexivity|]. intros i.
    rewrite !N.bits_0. now destruct (i <? width 0)%N.
  - destruct (format_08b_bin (Npos p)) as [Hne Hb]. unfold reverse_bits.
    rewrite int_bin_digits;
      [| intros H; apply Hne; apply (f_equal (@rev _)) in H;
         now rewrite rev_involutive in H
       | now apply forallb_rev].
    unfold format_08b, zfill, format_b.
    rewrite rev_app_distr, rev_involutive, rev_repeat, length_rev.
    rewrite int_digits_bits, int_digits_zeros.
    eexists. split; [reflexivity|]. intros i.
    pose proof (length_bits_lsb p) as HL.
    set (L := N.size (Npos p)) in *.
    set (k := N.of_nat (8 - length (bits_lsb p))).
    assert (width (Npos p) = L + k)%N as -> by (unfold width, k; fold L; lia).
    destruct (N.ltb_spec i k).
    + rewrite N.mul_pow2_bits_low by assumption.
      destruct (N.ltb_spec i (L + k)); [|reflexivity].
      symmetry. apply bits_above_size. fold L. lia.
    + rewrite N.mul_pow2_bits_high by assumption.
      rewrite rev_pos_bits. fold L.
      destruct (N.ltb_spec (i - k) L); destruct (N.ltb_spec i (L + k)); try lia.
      * f_equal. lia.
      * apply N.bits_0.
Qed.

(** ** The bit-order transform as a permutation *)

(** X2: on the bytes, [reverse_bits] is one-to-one and onto: every byte is
    the reverse of exactly one byte. *)
Theorem reverse_bits_permutes_bytes (r : N) (Hr : (r <= 255)%N) :
  exists v, (v <= 255)%N /\ reverse_bits v = Some r /\
            forall w, (w <= 255)%N -> reverse_bits w = Some r -> w = v.
Proof.
  destruct (reverse_bits_byte r Hr) as (v & Er & Hv & Ev).
  exists v. split; [assumption|]. split; [assumption|].
  intros w Hw Ew.
  destruct (reverse_bits_byte w Hw) as (r' & Er' & _ & Ew').
  congruence.
Qed.

Lemma reverse_bits_permutes_bytes_witness :
  exists v, (v <= 255)%N /\ reverse_bits v = Some 13%N /\
            forall w, (w <= 255)%N -> reverse_bits w = Some 13%N -> w = v.
Proof.
  apply (reverse_bits_permutes_bytes 13). vm_compute. discriminate.
Defined.

(** ** Reading and writing the file *)





(** ** Commented-out calls *)

Lemma stops_app cls a b : a <> [] -> stops cls a -> stops cls (a ++ b).
Proof. destruct a; [congruence | trivial]. Qed.

(** The matcher finds every well-formed commented-out call at the start of a
    text, with its five arguments as the groups. *)
Lemma draw_pattern_finds s1 s2 s3 x s4 y s5 bitmap s6 w s7 h s8 t post :
  Forall blank [s1; s2; s3; s4; s5; s6; s7; s8] ->
  Forall argument [x; y; bitmap; w; h] -> last_arguments t ->
  match_at draw_pattern
    (call_text s1 s2 s3 x s4 y s5 bitmap s6 w s7 h s8 t ++ post) =
  Some ([x; y; bitmap; w; h], post).
Proof.
  intros Hs Ha [Ht Ht'].
  repeat match goal with
         | H : Forall _ (_ :: _) |- _ => inversion H; subst; clear H
         | H : Forall _ [] |- _ => clear H
         | H : argument _ |- _ => destruct H
         end.
  unfold match_at, draw_pattern, call_text. rewrite <- !app_assoc.
  rewrite exec_lit_cat. apply exec_star_cat; [assumption | reflexivity |].
  rewrite exec_lit_cat. apply exec_star_cat; [assumption | reflexivity |].
  rewrite exec_lit_cat.
  do 5 (apply exec_star_cat;
          [assumption
          | apply stops_app; [now match goal with
                                  | H : run _ ?a |- ?a <> [] => destruct H
                                  end | assumption]
          |];
        apply exec_group_cat; [assumption | reflexivity |];
        rewrite exec_lit_cat).
  apply exec_star_cat;
    [assumption | apply stops_app; [now destruct Ht | assumption] |].
  apply exec_plus_cat; [assumption | reflexivity |].
  now rewrite exec_lit_end.
Qed.

(** The scan of a text that begins with a well-formed commented-out call. *)
Lemma scan_call s1 s2 s3 x s4 y s5 bitmap s6 w s7 h s8 t post :
  Forall blank [s1; s2; s3; s4; s5; s6; s7; s8] ->
  Forall argument [x; y; bitmap; w; h] -> last_arguments t ->
  scan draw_pattern 0
    (call_text s1 s2 s3 x s4 y s5 bitmap s6 w s7 h s8 t ++ post) =
  Hit (call_text s1 s2 s3 x s4 y s5 bitmap s6 w s7 h s8 t)
      [x; y; bitmap; w; h]
  :: scan draw_pattern 0 post.
Proof.
  intros. apply scan_hit; [discriminate | now apply draw_pattern_finds].
Qed.



Lemma run_split_unique (cls : ascii -> bool) : forall a a' u u',
  forallb cls a = true -> forallb cls a' = true ->
  u <> [] -> stops cls u -> u' <> [] -> stops cls u' ->
  a ++ u = a' ++ u' -> a = a' /\ u = u'.
Proof.
  induction a as [|c a IH]; intros [|c' a'] u u' Ha Ha' Hu Su Hu' Su' E;
    simpl in *.
  - now split.
  - subst u. simpl in Su. apply andb_prop in Ha' as [Hc _]. congruence.
  - subst u'. simpl in Su'. apply andb_prop in Ha as [Hc _]. congruence.
  - injection E as -> E. apply andb_prop in Ha as [_ Ha].
    apply andb_prop in Ha' as [_ Ha'].
    destruct (IH a' u u' Ha Ha' Hu Su Hu' Su' E) as [-> ->]. now split.
Qed.

Lemma space_not_comma c : isspace c = true -> is_not "," c = true.
Proof. each_char c. Qed.

Lemma space_not_close c : isspace c = true -> is_not ")" c = true.
Proof. each_char c. Qed.

Lemma blank_run_free (cls : ascii -> bool) s x :
  (forall c, isspace c = true -> cls c = true) ->
  blank s -> run cls x -> forallb cls (s ++ x) = true.
Proof.
  intros Hc Hs [_ Hx]. rewrite forallb_app, Hx, andb_true_r.
  exact (forallb_impl _ _ _ Hc Hs).
Qed.

Lemma no_slash_after_slash s :
  forallb (is_not "/") s = true -> contains (txt "//") ("/"%char :: s) = false.
Proof.
  intros H. rewrite contains_eq.
  assert (contains (txt "//") s = false) as ->.
  { clear -H. induction s as [|c s IH]; [reflexivity|].
    simpl in H. apply andb_prop in H as [Hc Hs].
    rewrite contains_eq, (IH Hs), orb_false_r.
    cbn [txt list_ascii_of_string starts_with].
    unfold is_not, is_char in Hc. apply negb_true_iff in Hc. now rewrite Hc. }
  rewrite orb_false_r. cbn [txt list_ascii_of_string starts_with].
  destruct s as [|c s]; [reflexivity|]. simpl in H.
  apply andb_prop in H as [Hc _].
  unfold is_not, is_char in Hc. apply negb_true_iff in Hc. now rewrite Hc.
Qed.

(** X10: when the first closing parenthesis after the fifth comma of a
    commented-out call is not followed by [;] (as in a sixth argument
    [color(1)]), the pattern does not match at that comment; if the text has
    no other [/], the call pass leaves all of it as it is. *)
Theorem call_with_parenthesis_stays
  (s1 s2 a1 a2 a3 a4 a5 u tail : str)
  (Hs1 : blank s1) (Hs2 : blank s2)
  (Hargs : Forall (fun a => forallb (is_not ",") a = true) [a1; a2; a3; a4; a5])
  (Hu : forallb (is_not ")") u = true)
  (Htail : stops (is_char ";") tail) :
  let text := call_start s1 s2 a1 a2 a3 a4 a5 ++ u ++ txt ")" ++ tail in
  match_at draw_pattern text = None /\
  (forallb (is_not "/")
     (s1 ++ s2 ++ a1 ++ a2 ++ a3 ++ a4 ++ a5 ++ u ++ tail) = true ->
   call_pass text = Some text).
Proof.
  intros text.
  assert (match_at draw_pattern text = None) as Hnone.
  { destruct (match_at draw_pattern text) as [[g rest]|] eqn:E; [|reflexivity].
    exfalso. apply match_at_sound in E as (m & E & M).
    apply draw_pattern_inv in M
      as (t1 & t2 & t3 & x & t4 & y & t5 & b & t6 & w & t7 & h & t8 & t
          & -> & _ & B1 & B2 & B3 & B4 & B5 & B6 & B7 & B8
          & Rx & Ry & Rb & Rw & Rh & Rt).
    repeat match goal with
           | H : Forall _ (_ :: _) |- _ => inversion H; subst; clear H
           | H : Forall _ [] |- _ => clear H
           end.
    unfold text, call_start, call_text in E. rewrite <- !app_assoc in E.
    apply app_inv_head in E.
    apply (run_split_unique isspace) in E as [<- E];
      [|assumption|assumption|discriminate|reflexivity|discriminate|reflexivity].
    apply app_inv_head in E.
    apply (run_split_unique isspace) in E as [<- E];
      [|assumption|assumption|discriminate|reflexivity|discriminate|reflexivity].
    apply app_inv_head in E.
    rewrite (app_assoc t3 x), (app_assoc t4 y), (app_assoc t5 b),
      (app_assoc t6 w), (app_assoc t7 h), (app_assoc t8 t) in E.
    do 5 (apply (run_split_unique (is_not ",")) in E as [_ E];
          [|assumption
           |now apply blank_run_free; [apply space_not_comma| |]
           |discriminate|reflexivity|discriminate|reflexivity];
          apply app_inv_head in E).
    apply (run_split_unique (is_not ")")) in E as [_ E];
      [|assumption
       |now apply blank_run_free; [apply space_not_close| |]
       |discriminate|reflexivity|discriminate|reflexivity].
    cbn [txt list_ascii_of_string app] in E. injection E as E.
    rewrite E in Htail. discriminate Htail. }
  split; [exact Hnone|].
  intros Hfree. unfold call_pass, sub.
  assert (exists body, text = "/"%char :: body /\
                       contains (txt "//") body = false) as (body & Eb & Hb).
  { eexists. split; [reflexivity|]. apply no_slash_after_slash.
    rewrite !forallb_app in *.
    repeat match goal with
           | H : Forall _ (_ :: _) |- _ => inversion H; subst; clear H
           | H : _ && _ = true |- _ => apply andb_prop in H as [? ?]
           end.
    repeat (apply andb_true_intro; split); try assumption; reflexivity. }
  rewrite Eb in *. rewrite (scan_miss _ _ _ Hnone).
  rewrite scan_no_match.
  - cbn [render]. now rewrite render_text.
  - intros (pre & m & post & g & -> & M). apply call_has_comment_sign in M.
    rewrite (contains_context _ pre post _ M) in Hb. discriminate.
Qed.

Lemma call_with_parenthesis_stays_witness :
  let text := txt "//display.drawBitmap(0, 0, icon, 8, 8, color(1));" in
  match_at draw_pattern text = None /\ call_pass text = Some text.
Proof.
  intros text.
  destruct (call_with_parenthesis_stays [] [] (txt "0") (txt " 0") (txt " icon")
              (txt " 8") (txt " 8") (txt " color(1") (txt ");"))
    as [H1 H2]; try reflexivity.
  - repeat constructor.
  - split; [exact H1 | apply H2; reflexivity].
Defined.

(** ** Writing a value and reading it back *)

Section HexRoundTrip.

Import Stdlib.Numbers.HexadecimalString.

Lemma int_digits_acc : forall d acc,
  int_digits 16 (Npos acc) (uint_chars d) =
  Some (Npos (Pos.of_hex_uint_acc d acc)).
Proof.
  induction d; intros acc; [reflexivity| ..];
    cbn [uint_chars NilEmpty.string_of_uint list_ascii_of_string int_digits
         Pos.of_hex_uint_acc];
    match goal with
    | |- context [digit_val ?c] =>
        let v := eval vm_compute in (digit_val c) in
        change (digit_val c) with v
    end;
    cbv iota;
    match goal with
    | |- context [(?k <? 16)%N] => change (k <? 16)%N with true
    end;
    cbv iota;
    match goal with
    | |- int_digits 16 ?a _ = Some (Npos (Pos.of_hex_uint_acc _ ?b)) =>
        replace a with (Npos b) by lia
    end;
    apply IHd.
Qed.

Lemma int_digits_uint : forall d,
  int_digits 16 0 (uint_chars d) = Some (Pos.of_hex_uint d).
Proof.
  induction d; [reflexivity | exact IHd | ..];
    cbn [uint_chars NilEmpty.string_of_uint list_ascii_of_string int_digits
         Pos.of_hex_uint];
    match goal with
    | |- context [digit_val ?c] =>
        let v := eval vm_compute in (digit_val c) in
        change (digit_val c) with v
    end;
    cbv iota;
    match goal with
    | |- context [(?k <? 16)%N] => change (k <? 16)%N with true
    end;
    cbv iota;
    apply (int_digits_acc d).
Qed.

Lemma int_digits_format_x n : int_digits 16 0 (format_x n) = Some n.
Proof.
  unfold format_x, NilZero.string_of_uint.
  rewrite <- (HexadecimalN.Unsigned.of_to n) at 2.
  unfold N.of_hex_uint.
  destruct (N.to_hex_uint n) eqn:E; try apply int_digits_uint.
  reflexivity.
Qed.

Lemma int_digits_zfill : forall k s,
  int_digits 16 0 (repeat "0"%char k ++ s) = int_digits 16 0 s.
Proof. induction k as [|k IH]; intros s; [reflexivity | apply IH]. Qed.

(** [int(f"0x{v:02x}", 16)] is [v], for every [v]. *)
Lemma literal_reads_back v : int (strip (literal v)) 16 = Some v.
Proof.
  destruct (format_02x_lower v) as [Hne Hl].
  assert (forallb is_hex (format_02x v) = true) as Hh
    by exact (forallb_impl _ _ _ lower_hex_is_hex_digit Hl).
  unfold literal. rewrite (int_hex_literal _ Hne Hh). f_equal.
  pose proof (int_digits_hex (format_02x v) 0 Hh) as E.
  assert (int_digits 16 0 (format_02x v) = Some v) as E1.
  { unfold format_02x, zfill. rewrite int_digits_zfill.
    apply int_digits_format_x. }
  rewrite E1 in E. injection E as E. unfold hex_val. now rewrite <- E.
Qed.

End HexRoundTrip.

(** X11: the serialized form of any list of values, of bytes or of larger
    numbers, is read back by the parser as the same list. *)
Theorem parse_values_wrap_any (new_values : list N) :
  parse_values (wrap new_values) = Some new_values.
Proof.
  unfold parse_values. rewrite findall_wrap.
  induction new_values as [|v vs IH]; [reflexivity|].
  cbn [map mapM]. now rewrite literal_reads_back, IH.
Qed.

(** ** The two passes together *)

Section Prefix.

Variable r : regex.
Variable repl : str -> list str -> option str.

Lemma scan_prefix_free rest : forall a,
  (forall a1 a2, a = a1 ++ a2 -> a2 <> [] -> match_at r (a2 ++ rest) = None) ->
  scan r 0 (a ++ rest) = map Text a ++ scan r 0 rest.
Proof.
  induction a as [|c a IH]; intros H; [reflexivity|].
  change ((c :: a) ++ rest) with (c :: a ++ rest).
  rewrite scan_miss by (apply (H [] (c :: a)); [reflexivity | discriminate]).
  cbn [map app]. f_equal. apply IH.
  intros a1 a2 -> Hne. now apply (H (c :: a1) a2).
Qed.

Lemma render_after_text a : forall l,
  render repl (map Text a ++ l) = t <- render repl l ;; Some (a ++ t).
Proof.
  intros l. induction a as [|c a IH]; cbn [map app render].
  - now destruct (render repl l).
  - rewrite IH. now destruct (render repl l).
Qed.

Lemma sub_prefix_free a rest :
  (forall a1 a2, a = a1 ++ a2 -> a2 <> [] -> match_at r (a2 ++ rest) = None) ->
  sub r repl (a ++ rest) = t <- sub r repl rest ;; Some (a ++ t).
Proof.
  intros H. unfold sub. rewrite (scan_prefix_free _ _ H).
  apply render_after_text.
Qed.

End Prefix.

Lemma word_not_slash c : is_word c = true -> is_not "/" c = true.
Proof. each_char c. Qed.

Lemma wrap_char_not_slash c : is_wrap_char c = true -> is_not "/" c = true.
Proof. each_char c. Qed.

Lemma declaration_no_slash name new_values :
  forallb is_word name = true ->
  forallb (is_not "/") (declaration name (wrap new_values)) = true.
Proof.
  intros Hn. unfold declaration.
  rewrite !forallb_app, (forallb_impl _ _ _ word_not_slash Hn),
    (forallb_impl _ _ _ wrap_char_not_slash (wrap_chars new_values)).
  reflexivity.
Qed.

Lemma call_pass_after_no_slash a rest :
  forallb (is_not "/") a = true ->
  call_pass (a ++ rest) = t <- call_pass rest ;; Some (a ++ t).
Proof.
  intros Ha. apply sub_prefix_free. intros a1 a2 -> Hne.
  rewrite forallb_app in Ha. apply andb_prop in Ha as [_ Ha].
  destruct a2 as [|c a2]; [congruence|]. simpl in Ha.
  apply andb_prop in Ha as [Hc _].
  unfold match_at, draw_pattern. cbn [exec].
  rewrite starts_with_strip_prefix; [reflexivity|].
  cbn [app txt list_ascii_of_string starts_with].
  unfold is_not, is_char in Hc. apply negb_true_iff in Hc. now rewrite Hc.
Qed.

(** X12: the two passes on a text that begins with a declaration: the
    declaration comes out rewritten by the array pass and untouched by the
    call pass, followed by what the two passes make of the rest of the
    text. *)
Theorem both_passes_declaration
  (s1 s2 s3 name s4 s5 s6 s7 body post : str)
  (H1 : run isspace s1) (H2 : run isspace s2) (H3 : run isspace s3)
  (Hname : run is_word name)
  (H4 : blank s4) (H5 : blank s5) (H6 : blank s6) (H7 : blank s7)
  (Hbody : run (is_not "}") body) :
  exists values new_values out,
    parse_values body = Some values /\
    mapM reverse_bits values = Some new_values /\
    both_passes post = Some out /\
    both_passes (decl_text s1 s2 s3 name s4 s5 s6 s7 body ++ post) =
      Some (declaration name (wrap new_values) ++ out).
Proof.
  destruct (parse_values_total body) as [values Hv].
  destruct (reverse_all_total values) as [new_values Hn].
  destruct (array_pass_total post) as [rest Hp].
  destruct (call_pass_total rest) as [out Ho].
  exists values, new_values, out. repeat (split; [assumption|]).
  assert (array_pass (decl_text s1 s2 s3 name s4 s5 s6 s7 body ++ post) =
          Some (declaration name (wrap new_values) ++ rest)) as Ha.
  { unfold array_pass, sub in *. rewrite scan_declaration by assumption.
    cbn [render]. unfold replacement at 1. cbn [nth].
    rewrite Hv. simpl. rewrite Hn. simpl. now rewrite Hp. }
  unfold both_passes. rewrite Hp, Ha. cbn [bind]. split; [exact Ho|].
  rewrite call_pass_after_no_slash, Ho; [reflexivity|].
  apply declaration_no_slash, Hname.
Qed.

Lemma both_passes_declaration_witness :
  exists values new_values out,
    parse_values (txt "0x01, 0x80") = Some values /\
    mapM reverse_bits values = Some new_values /\
    both_passes (txt " //display.drawBitmap(0, 0, icon, 8, 8, 1);") = Some out /\
    both_passes
      (decl_text sp sp sp (txt "icon") [] sp sp sp (txt "0x01, 0x80") ++
       txt " //display.drawBitmap(0, 0, icon, 8, 8, 1);") =
      Some (declaration (txt "icon") (wrap new_values) ++ out).
Proof.
  apply (both_passes_declaration sp sp sp (txt "icon") [] sp sp sp
           (txt "0x01, 0x80")
           (txt " //display.drawBitmap(0, 0, icon, 8, 8, 1);"));
    try reflexivity; split; (discriminate || reflexivity).
Defined.

Lemma pattern_no_prefix s :
  starts_with (txt "const") s = false -> match_at pattern s = None.
Proof.
  intros H. unfold match_at, pattern. cbn [exec].
  now rewrite (starts_with_strip_prefix _ _ H).
Qed.

Lemma contains_suffix p : forall a1 a2,
  contains p (a1 ++ a2) = false -> starts_with p a2 = false.
Proof.
  induction a1 as [|c a1 IH]; intros a2 H.
  - rewrite contains_eq in H. now apply orb_false_elim in H as [H _].
  - change ((c :: a1) ++ a2) with (c :: a1 ++ a2) in H.
    rewrite contains_eq in H. apply orb_false_elim in H as [_ H].
    now apply IH.
Qed.

Lemma starts_with_past_end c rest : forall p a,
  forallb (is_not c) p = true ->
  starts_with p ((a ++ [c]) ++ rest) = starts_with p (a ++ [c]).
Proof.
  induction p as [|q p IH]; intros a Hp; [now destruct a|].
  simpl in Hp. apply andb_prop in Hp as [Hq Hp].
  destruct a as [|x a]; cbn [app starts_with].
  - unfold is_not, is_char in Hq. apply negb_true_iff in Hq.
    rewrite Ascii.eqb_sym in Hq. now rewrite Hq.
  - f_equal. now apply IH.
Qed.

Lemma suffix_last (a1 a2 b : str) c :
  a1 ++ a2 = b ++ [c] -> a2 <> [] -> exists a, a2 = a ++ [c].
Proof.
  intros E Hne. destruct (exists_last Hne) as (a & x & ->).
  rewrite app_assoc in E. apply app_inj_tail in E as [_ ->]. now exists a.
Qed.

(** X13: the two passes on a text that begins with a well-formed
    commented-out call in which [const] does not occur: the array pass
    leaves the call alone, the call pass rewrites it, and what follows is
    what the two passes make of the rest of the text. *)
Theorem both_passes_call
  (s1 s2 s3 x s4 y s5 bitmap s6 w s7 h s8 t post : str)
  (Hspace : Forall blank [s1; s2; s3; s4; s5; s6; s7; s8])
  (Hargs : Forall argument [x; y; bitmap; w; h])
  (Hlast : last_arguments t)
  (Hconst : contains (txt "const")
              (call_text s1 s2 s3 x s4 y s5 bitmap s6 w s7 h s8 t) = false) :
  exists out,
    both_passes post = Some out /\
    both_passes (call_text s1 s2 s3 x s4 y s5 bitmap s6 w s7 h s8 t ++ post) =
      Some (draw_call (strip x) (strip y) (strip w) (strip h) (strip bitmap)
            ++ out).
Proof.
  destruct (array_pass_total post) as [rest Hr].
  destruct (call_pass_total rest) as [out Ho].
  exists out. unfold both_passes. rewrite Hr. cbn [bind].
  split; [exact Ho|].
  assert (array_pass
            (call_text s1 s2 s3 x s4 y s5 bitmap s6 w s7 h s8 t ++ post) =
          Some (call_text s1 s2 s3 x s4 y s5 bitmap s6 w s7 h s8 t ++ rest))
    as ->.
  { unfold array_pass in *. rewrite sub_prefix_free, Hr; [reflexivity|].
    intros a1 a2 E Hne. apply pattern_no_prefix.
    assert (exists b, call_text s1 s2 s3 x s4 y s5 bitmap s6 w s7 h s8 t =
                      b ++ [";"%char]) as [b Eb].
    { eexists. unfold call_text.
      change (txt ");") with (txt ")" ++ [";"%char]).
      rewrite !app_assoc. reflexivity. }
    rewrite E in Eb. destruct (suffix_last _ _ _ _ Eb Hne) as [a ->].
    rewrite starts_with_past_end by reflexivity.
    rewrite E in Hconst. now apply contains_suffix in Hconst. }
  cbn [bind]. unfold call_pass, sub in *.
  rewrite scan_call by assumption.
  cbn [render draw_replacement nth]. simpl bind. now rewrite Ho.
Qed.

Lemma both_passes_call_witness :
  exists out,
    both_passes (txt " const unsigned char a[] PROGMEM = {0x01};") = Some out /\
    both_passes
      (call_text [] [] [] (txt "0") sp (txt "0") sp (txt "icon") sp (txt "8")
         sp (txt "8") sp (txt "1") ++
       txt " const unsigned char a[] PROGMEM = {0x01};") =
      Some (draw_call (strip (txt "0")) (strip (txt "0")) (strip (txt "8"))
              (strip (txt "8")) (strip (txt "icon")) ++ out).
Proof.
  apply (both_passes_call [] [] [] (txt "0") sp (txt "0") sp (txt "icon") sp
           (txt "8") sp (txt "8") sp (txt "1")
           (txt " const unsigned char a[] PROGMEM = {0x01};")).
  - repeat constructor.
  - repeat constructor; discriminate.
  - repeat constructor; discriminate.
  - reflexivity.
Defined.

(** ** The width of a literal *)

Lemma lower_hex_value c :
  is_lower_hex c = true ->
  exists d, digit_val c = Some d /\ (d <= 15)%N.
Proof.
  destruct c as [[] [] [] [] [] [] [] []]; vm_compute; intros H;
    try discriminate H; eexists; (split; [reflexivity | discriminate]).
Qed.

(** X15: the literal written for a value has exactly two digits if and only
    if the value is a byte: the format pads small values with a zero and
    never cuts a large one. *)
Theorem two_digits_iff_byte (v : N) :
  two_digit_literal (literal v) <-> (v <= 255)%N.
Proof.
  split; [|intros Hv; now apply byte_literal].
  intros (d1 & d2 & E & H1 & H2).
  pose proof (literal_reads_back v) as R. rewrite E in R.
  rewrite int_hex_literal in R;
    [| discriminate
     | simpl; now rewrite (lower_hex_is_hex_digit _ H1),
                          (lower_hex_is_hex_digit _ H2)].
  injection R as <-. unfold hex_val. cbn [fold_left].
  destruct (lower_hex_value _ H1) as (v1 & -> & L1).
  destruct (lower_hex_value _ H2) as (v2 & -> & L2). lia.
Qed.
